(** * SuperAgent chat front end: the streaming decoder, the send guard and
      the two transport proxy handlers

    The development embeds three source files:
    - [src/components/ChatInterface.tsx]: [sendMessage], [sendMessageSync],
      [sendMessageStream], [clearChat];
    - [src/app/api/chat/route.ts] and [src/app/api/chat/stream/route.ts]:
      the two [POST] handlers.

    JavaScript strings are sequences of UTF-16 code units, byte chunks are
    lists of bytes, React state is passed explicitly, and the platform
    functions the code calls ([TextDecoder.decode], [String.split],
    [JSON.parse], [String.trim], ...) are given executable models. *)

From Stdlib Require Import ZArith List Bool Ascii String Lia DecimalZ.
From stdpp Require Import base option list.
Import ListNotations.
Local Open Scope Z_scope.
Set Warnings "-register-all".

(** ** JavaScript strings *)

(** A JavaScript string: its UTF-16 code units, each in [0, 65536). *)
Abbreviation jsstring := (list Z).

(** An ASCII literal of the source as a JavaScript string. *)
Definition js (s : string) : jsstring :=
  map (fun a => Z.of_N (N_of_ascii a)) (list_ascii_of_string s).

(** [s.split(sep)] for a one-code-unit separator; never the empty list. *)
Fixpoint split (sep : Z) (s : jsstring) : list jsstring :=
  match s with
  | [] => [[]]
  | c :: s' =>
      if c =? sep then [] :: split sep s'
      else match split sep s' with
           | [] => [[c]]
           | l :: ls => (c :: l) :: ls
           end
  end.

(** [s.startsWith(p)]. *)
Fixpoint startsWith (s p : jsstring) : bool :=
  match p, s with
  | [], _ => true
  | _ :: _, [] => false
  | x :: p', y :: s' => (x =? y) && startsWith s' p'
  end.

(** [s.slice(n)] for a non-negative literal [n]. *)
Definition slice (n : nat) (s : jsstring) : jsstring := drop n s.

(** White space and line terminators removed by [String.prototype.trim]. *)
Definition is_trim_space (c : Z) : bool :=
  (c =? 0x09) || (c =? 0x0A) || (c =? 0x0B) || (c =? 0x0C) || (c =? 0x0D)
  || (c =? 0x20) || (c =? 0xA0) || (c =? 0x1680)
  || ((0x2000 <=? c) && (c <=? 0x200A))
  || (c =? 0x2028) || (c =? 0x2029) || (c =? 0x202F) || (c =? 0x205F)
  || (c =? 0x3000) || (c =? 0xFEFF).

Fixpoint trimStart (s : jsstring) : jsstring :=
  match s with
  | c :: s' => if is_trim_space c then trimStart s' else s
  | [] => []
  end.

(** [s.trim()]. *)
Definition trim (s : jsstring) : jsstring :=
  rev (trimStart (rev (trimStart s))).

(** Decimal digits of a [Decimal.uint], most significant first. *)
Fixpoint uint_digits (d : Decimal.uint) : jsstring :=
  match d with
  | Decimal.Nil => []
  | Decimal.D0 d' => 48 :: uint_digits d'
  | Decimal.D1 d' => 49 :: uint_digits d'
  | Decimal.D2 d' => 50 :: uint_digits d'
  | Decimal.D3 d' => 51 :: uint_digits d'
  | Decimal.D4 d' => 52 :: uint_digits d'
  | Decimal.D5 d' => 53 :: uint_digits d'
  | Decimal.D6 d' => 54 :: uint_digits d'
  | Decimal.D7 d' => 55 :: uint_digits d'
  | Decimal.D8 d' => 56 :: uint_digits d'
  | Decimal.D9 d' => 57 :: uint_digits d'
  end.

(** [n.toString()] for an integer [n] (clock readings, HTTP statuses). *)
Definition toString (n : Z) : jsstring :=
  match Z.to_int n with
  | Decimal.Pos d => uint_digits d
  | Decimal.Neg d => 45 :: uint_digits d
  end.

(** ** [TextDecoder]: the UTF-8 decoder of the Encoding standard *)

Record utf8_state := {
  code_point : Z;
  bytes_seen : Z;
  bytes_needed : Z;
  lower_boundary : Z;
  upper_boundary : Z
}.

Definition utf8_initial : utf8_state :=
  {| code_point := 0; bytes_seen := 0; bytes_needed := 0;
     lower_boundary := 0x80; upper_boundary := 0xBF |}.

(** The handler on a byte when no continuation byte is awaited. *)
Definition utf8_lead (b : Z) : utf8_state * list Z :=
  if b <=? 0x7F then (utf8_initial, [b])
  else if (0xC2 <=? b) && (b <=? 0xDF) then
    ({| code_point := Z.land b 0x1F; bytes_seen := 0; bytes_needed := 1;
        lower_boundary := 0x80; upper_boundary := 0xBF |}, [])
  else if (0xE0 <=? b) && (b <=? 0xEF) then
    ({| code_point := Z.land b 0xF; bytes_seen := 0; bytes_needed := 2;
        lower_boundary := if b =? 0xE0 then 0xA0 else 0x80;
        upper_boundary := if b =? 0xED then 0x9F else 0xBF |}, [])
  else if (0xF0 <=? b) && (b <=? 0xF4) then
    ({| code_point := Z.land b 0x7; bytes_seen := 0; bytes_needed := 3;
        lower_boundary := if b =? 0xF0 then 0x90 else 0x80;
        upper_boundary := if b =? 0xF4 then 0x8F else 0xBF |}, [])
  else (utf8_initial, [0xFFFD]).

(** One step of the handler: the next state and the code points emitted.
    A byte outside the awaited range emits U+FFFD and is processed again
    from the initial state. *)
Definition utf8_handler (st : utf8_state) (b : Z) : utf8_state * list Z :=
  if bytes_needed st =? 0 then utf8_lead b
  else if negb ((lower_boundary st <=? b) && (b <=? upper_boundary st)) then
    let (st', out) := utf8_lead b in (st', 0xFFFD :: out)
  else
    let cp := Z.lor (Z.shiftl (code_point st) 6) (Z.land b 0x3F) in
    if bytes_seen st + 1 =? bytes_needed st then (utf8_initial, [cp])
    else ({| code_point := cp; bytes_seen := bytes_seen st + 1;
             bytes_needed := bytes_needed st;
             lower_boundary := 0x80; upper_boundary := 0xBF |}, []).

(** Run the handler to the end of the queue; an unfinished sequence at the
    end of the queue emits U+FFFD (the decoder is not in streaming mode). *)
Fixpoint utf8_run (st : utf8_state) (bs : list Byte.byte) : list Z :=
  match bs with
  | [] => if bytes_needed st =? 0 then [] else [0xFFFD]
  | b :: bs' =>
      let (st', out) := utf8_handler st (Z.of_N (Byte.to_N b)) in
      out ++ utf8_run st' bs'
  end.

(** A scalar value as UTF-16 code units. *)
Definition utf16_units (c : Z) : jsstring :=
  if c <? 0x10000 then [c]
  else [0xD800 + Z.shiftr (c - 0x10000) 10;
        0xDC00 + Z.land (c - 0x10000) 0x3FF].

(** A leading byte order mark is dropped ([ignoreBOM] is false). *)
Definition strip_bom (s : jsstring) : jsstring :=
  match s with
  | c :: s' => if c =? 0xFEFF then s' else s
  | [] => []
  end.

(** [new TextDecoder().decode(value)]: a fresh decoder for each call, no
    [stream] option. *)
Definition TextDecoder_decode (value : list Byte.byte) : jsstring :=
  strip_bom (flat_map utf16_units (utf8_run utf8_initial value)).

(** ** JSON values and [JSON.parse] *)

(** A JSON number kept exactly as written: [(-1)^neg * mant * 10^exp10].
    The program tests numbers for truthiness and otherwise passes them on. *)
Record number := { neg : bool; mant : Z; exp10 : Z }.

(** The JavaScript values the program handles: [undefined] and the values
    produced by [JSON.parse].  An object keeps its members in textual order,
    duplicates included; a property read takes the last binding. *)
Inductive jsval :=
| JUndefined
| JNull
| JBool (b : bool)
| JNum (n : number)
| JStr (s : jsstring)
| JArr (elems : list jsval)
| JObj (members : list (jsstring * jsval)).

(** Whether the number rounds to (plus or minus) zero as an IEEE double:
    its magnitude is at most [2^-1075], half the least subnormal. *)
Definition number_is_zero (n : number) : bool :=
  (mant n =? 0)
  || ((exp10 n <? 0) && (mant n * 2 ^ 1075 <=? 10 ^ (- exp10 n))).

(** [ToBoolean], the test behind [if (v)] and [v || w]. *)
Definition truthy (v : jsval) : bool :=
  match v with
  | JUndefined | JNull => false
  | JBool b => b
  | JNum n => negb (number_is_zero n)
  | JStr s => match s with [] => false | _ :: _ => true end
  | JArr _ | JObj _ => true
  end.

(** The last binding of [key] among the members of an object. *)
Fixpoint lookup_last (key : jsstring) (ms : list (jsstring * jsval))
  : option jsval :=
  match ms with
  | [] => None
  | (k, v) :: ms' =>
      match lookup_last key ms' with
      | Some v' => Some v'
      | None => if decide (k = key) then Some v else None
      end
  end.

(** [data.key] for the property names the program reads ([content], [type],
    [model], [response], [error]), none of which is defined on a built-in
    prototype.  [None] is the [TypeError] thrown on [null] and [undefined];
    a missing property reads as [undefined]. *)
Definition get (data : jsval) (key : jsstring) : option jsval :=
  match data with
  | JUndefined | JNull => None
  | JObj ms =>
      Some (match lookup_last key ms with Some v => v | None => JUndefined end)
  | _ => Some JUndefined
  end.

Inductive token :=
| TLBrace | TRBrace | TLBracket | TRBracket | TColon | TComma
| TStr (s : jsstring) | TNum (n : number) | TTrue | TFalse | TNull.

(** Where the lexer stands inside a number. *)
Inductive num_phase :=
| NMinus | NZero | NInt | NDot | NFrac | NE | NESign | NExp.

Record num_acc := {
  n_neg : bool; n_mant : Z; n_scale : Z; n_eneg : bool; n_exp : Z
}.

Definition num_value (a : num_acc) : number :=
  {| neg := n_neg a; mant := n_mant a;
     exp10 := (if n_eneg a then - n_exp a else n_exp a) - n_scale a |}.

Inductive lex_mode :=
| LDefault
| LStr (acc : jsstring)
| LEsc (acc : jsstring)
| LUni (acc : jsstring) (remaining : nat) (v : Z)
| LNum (ph : num_phase) (a : num_acc)
| LLit (rest : jsstring) (t : token).

Definition is_digit (c : Z) : bool := (48 <=? c) && (c <=? 57).

Definition hex_value (c : Z) : option Z :=
  if is_digit c then Some (c - 48)
  else if (65 <=? c) && (c <=? 70) then Some (c - 55)
  else if (97 <=? c) && (c <=? 102) then Some (c - 87)
  else None.

Definition is_json_space (c : Z) : bool :=
  (c =? 0x09) || (c =? 0x0A) || (c =? 0x0D) || (c =? 0x20).

Definition num_start (negative : bool) (m : Z) : num_acc :=
  {| n_neg := negative; n_mant := m; n_scale := 0;
     n_eneg := false; n_exp := 0 |}.

(** A code unit met between tokens.  Tokens are accumulated in reverse. *)
Definition lex_default (toks : list token) (c : Z)
  : option (lex_mode * list token) :=
  if is_json_space c then Some (LDefault, toks)
  else if c =? 123 then Some (LDefault, TLBrace :: toks)
  else if c =? 125 then Some (LDefault, TRBrace :: toks)
  else if c =? 91 then Some (LDefault, TLBracket :: toks)
  else if c =? 93 then Some (LDefault, TRBracket :: toks)
  else if c =? 58 then Some (LDefault, TColon :: toks)
  else if c =? 44 then Some (LDefault, TComma :: toks)
  else if c =? 34 then Some (LStr [], toks)
  else if c =? 45 then Some (LNum NMinus (num_start true 0), toks)
  else if c =? 48 then Some (LNum NZero (num_start false 0), toks)
  else if is_digit c then Some (LNum NInt (num_start false (c - 48)), toks)
  else if c =? 116 then Some (LLit (js "rue") TTrue, toks)
  else if c =? 102 then Some (LLit (js "alse") TFalse, toks)
  else if c =? 110 then Some (LLit (js "ull") TNull, toks)
  else None.

(** A code unit met inside a number: [Some (Some _)] continues the number,
    [Some None] means the number ended before this code unit, [None] is a
    syntax error. *)
Definition lex_num (ph : num_phase) (a : num_acc) (c : Z)
  : option (option (num_phase * num_acc)) :=
  let digit := is_digit c in
  let d := c - 48 in
  let is_e := (c =? 101) || (c =? 69) in
  let with_mant := {| n_neg := n_neg a; n_mant := n_mant a * 10 + d;
                      n_scale := n_scale a; n_eneg := n_eneg a;
                      n_exp := n_exp a |} in
  let with_frac := {| n_neg := n_neg a; n_mant := n_mant a * 10 + d;
                      n_scale := n_scale a + 1; n_eneg := n_eneg a;
                      n_exp := n_exp a |} in
  let with_exp := {| n_neg := n_neg a; n_mant := n_mant a;
                     n_scale := n_scale a; n_eneg := n_eneg a;
                     n_exp := n_exp a * 10 + d |} in
  let with_esign (s : bool) := {| n_neg := n_neg a; n_mant := n_mant a;
                     n_scale := n_scale a; n_eneg := s;
                     n_exp := n_exp a |} in
  match ph with
  | NMinus =>
      if c =? 48 then Some (Some (NZero, a))
      else if digit then Some (Some (NInt, with_mant))
      else None
  | NZero =>
      if c =? 46 then Some (Some (NDot, a))
      else if is_e then Some (Some (NE, a))
      else Some None
  | NInt =>
      if digit then Some (Some (NInt, with_mant))
      else if c =? 46 then Some (Some (NDot, a))
      else if is_e then Some (Some (NE, a))
      else Some None
  | NDot => if digit then Some (Some (NFrac, with_frac)) else None
  | NFrac =>
      if digit then Some (Some (NFrac, with_frac))
      else if is_e then Some (Some (NE, a))
      else Some None
  | NE =>
      if c =? 43 then Some (Some (NESign, with_esign false))
      else if c =? 45 then Some (Some (NESign, with_esign true))
      else if digit then Some (Some (NExp, with_exp))
      else None
  | NESign => if digit then Some (Some (NExp, with_exp)) else None
  | NExp => if digit then Some (Some (NExp, with_exp)) else Some None
  end.

(** The character denoted by a one-letter escape. *)
Definition escape_value (c : Z) : option Z :=
  if (c =? 34) || (c =? 92) || (c =? 47) then Some c
  else if c =? 98 then Some 8
  else if c =? 102 then Some 12
  else if c =? 110 then Some 10
  else if c =? 114 then Some 13
  else if c =? 116 then Some 9
  else None.

(** One step of the lexer. *)
Definition lex_step (st : lex_mode * list token) (c : Z)
  : option (lex_mode * list token) :=
  let (mode, toks) := st in
  match mode with
  | LDefault => lex_default toks c
  | LStr acc =>
      if c =? 34 then Some (LDefault, TStr (rev acc) :: toks)
      else if c =? 92 then Some (LEsc acc, toks)
      else if c <? 0x20 then None
      else Some (LStr (c :: acc), toks)
  | LEsc acc =>
      if c =? 117 then Some (LUni acc 4 0, toks)
      else match escape_value c with
           | Some v => Some (LStr (v :: acc), toks)
           | None => None
           end
  | LUni acc remaining v =>
      match hex_value c with
      | Some h =>
          match remaining with
          | O => None
          | S O => Some (LStr ((v * 16 + h) :: acc), toks)
          | S remaining' => Some (LUni acc remaining' (v * 16 + h), toks)
          end
      | None => None
      end
  | LNum ph a =>
      match lex_num ph a c with
      | Some (Some (ph', a')) => Some (LNum ph' a', toks)
      | Some None => lex_default (TNum (num_value a) :: toks) c
      | None => None
      end
  | LLit rest t =>
      match rest with
      | [] => None
      | [x] => if c =? x then Some (LDefault, t :: toks) else None
      | x :: rest' => if c =? x then Some (LLit rest' t, toks) else None
      end
  end.

Fixpoint lex_run (st : lex_mode * list token) (s : jsstring)
  : option (lex_mode * list token) :=
  match s with
  | [] => Some st
  | c :: s' =>
      match lex_step st c with
      | Some st' => lex_run st' s'
      | None => None
      end
  end.

(** The tokens of a text, or [None] on a lexical error. *)
Definition lex (s : jsstring) : option (list token) :=
  match lex_run (LDefault, []) s with
  | Some (LDefault, toks) => Some (rev toks)
  | Some (LNum ph a, toks) =>
      match ph with
      | NZero | NInt | NFrac | NExp => Some (rev (TNum (num_value a) :: toks))
      | _ => None
      end
  | _ => None
  end.

(** A container being built: its elements or members so far, in reverse,
    and for an object the key awaiting its value. *)
Inductive frame :=
| FArr (elems : list jsval)
| FObj (members : list (jsstring * jsval)) (key : option jsstring).

(** What the parser expects next. *)
Inductive parse_mode :=
| PValue | PValueOrClose | PKeyOrClose | PKey | PColon | PAfter
| PDone (v : jsval).

(** A value is complete: it is the whole text, or goes into the innermost
    open container. *)
Definition complete (v : jsval) (stack : list frame)
  : option (parse_mode * list frame) :=
  match stack with
  | [] => Some (PDone v, [])
  | FArr es :: stack' => Some (PAfter, FArr (v :: es) :: stack')
  | FObj ms (Some k) :: stack' =>
      Some (PAfter, FObj ((k, v) :: ms) None :: stack')
  | FObj _ None :: _ => None
  end.

Definition close_array (stack : list frame)
  : option (parse_mode * list frame) :=
  match stack with
  | FArr es :: stack' => complete (JArr (rev es)) stack'
  | _ => None
  end.

Definition close_object (stack : list frame)
  : option (parse_mode * list frame) :=
  match stack with
  | FObj ms None :: stack' => complete (JObj (rev ms)) stack'
  | _ => None
  end.

Definition parse_value_token (orClose : bool) (stack : list frame) (t : token)
  : option (parse_mode * list frame) :=
  match t with
  | TStr s => complete (JStr s) stack
  | TNum n => complete (JNum n) stack
  | TTrue => complete (JBool true) stack
  | TFalse => complete (JBool false) stack
  | TNull => complete JNull stack
  | TLBracket => Some (PValueOrClose, FArr [] :: stack)
  | TLBrace => Some (PKeyOrClose, FObj [] None :: stack)
  | TRBracket => if orClose then close_array stack else None
  | _ => None
  end.

Definition parse_key_token (orClose : bool) (stack : list frame) (t : token)
  : option (parse_mode * list frame) :=
  match t, stack with
  | TStr k, FObj ms None :: stack' => Some (PColon, FObj ms (Some k) :: stack')
  | TRBrace, _ => if orClose then close_object stack else None
  | _, _ => None
  end.

(** One step of the parser on a token. *)
Definition parse_step (st : parse_mode * list frame) (t : token)
  : option (parse_mode * list frame) :=
  let (mode, stack) := st in
  match mode with
  | PValue => parse_value_token false stack t
  | PValueOrClose => parse_value_token true stack t
  | PKeyOrClose => parse_key_token true stack t
  | PKey => parse_key_token false stack t
  | PColon => match t with TColon => Some (PValue, stack) | _ => None end
  | PAfter =>
      match t, stack with
      | TComma, FArr _ :: _ => Some (PValue, stack)
      | TComma, FObj _ _ :: _ => Some (PKey, stack)
      | TRBracket, _ => close_array stack
      | TRBrace, _ => close_object stack
      | _, _ => None
      end
  | PDone _ => None
  end.

Fixpoint parse_run (st : parse_mode * list frame) (ts : list token)
  : option (parse_mode * list frame) :=
  match ts with
  | [] => Some st
  | t :: ts' =>
      match parse_step st t with
      | Some st' => parse_run st' ts'
      | None => None
      end
  end.

(** [JSON.parse(text)]: the value, or [None] when a [SyntaxError] is
    thrown. *)
Definition JSON_parse (text : jsstring) : option jsval :=
  match lex text with
  | Some ts =>
      match parse_run (PValue, []) ts with
      | Some (PDone v, []) => Some v
      | _ => None
      end
  | None => None
  end.

(** ** [src/components/ChatInterface.tsx] *)

Module ChatInterface.

Inductive Sender := user | assistant.

(** [interface Message].  At run time [content] holds whatever value was
    assigned to it, so it is a [jsval]; [model] is optional. *)
Record Message := {
  id : jsstring;
  content : jsval;
  sender : Sender;
  timestamp : Z;
  model : option jsval
}.

(** Values thrown inside the [try] blocks. *)
Inductive Exn :=
| SyntaxError (text : jsstring)      (* [JSON.parse(text)] failed *)
| TypeError (property : jsstring)    (* a property of [null] was read, or
                                        an object could not be converted to
                                        a primitive through [property] *)
| Error (message : jsstring)         (* [new Error(message)] *)
| Rejected (message : jsstring).     (* a platform promise was rejected *)

(** One [console.error(label, e)] call. *)
Record LogEntry := { label : jsstring; logged : Exn }.

(** A [fetch(url, { method: "POST", headers, body })] call; [body] is the
    object handed to [JSON.stringify]. *)
Record Request := {
  url : jsstring;
  method : jsstring;
  headers : list (jsstring * jsstring);
  body : jsval
}.

(** The component state ([useState] cells) together with the observable
    effects of the component: the console, the requests sent with [fetch],
    and the number of clock readings made so far. *)
Record World := {
  messages : list Message;
  input : jsstring;
  isLoading : bool;
  useStreaming : bool;
  console : list LogEntry;
  fetched : list Request;
  ticks : nat
}.

Definition setMessages (f : list Message -> list Message) (w : World) : World :=
  {| messages := f (messages w); input := input w; isLoading := isLoading w;
     useStreaming := useStreaming w; console := console w;
     fetched := fetched w; ticks := ticks w |}.

Definition setInput (s : jsstring) (w : World) : World :=
  {| messages := messages w; input := s; isLoading := isLoading w;
     useStreaming := useStreaming w; console := console w;
     fetched := fetched w; ticks := ticks w |}.

Definition setIsLoading (b : bool) (w : World) : World :=
  {| messages := messages w; input := input w; isLoading := b;
     useStreaming := useStreaming w; console := console w;
     fetched := fetched w; ticks := ticks w |}.

Definition setUseStreaming (b : bool) (w : World) : World :=
  {| messages := messages w; input := input w; isLoading := isLoading w;
     useStreaming := b; console := console w;
     fetched := fetched w; ticks := ticks w |}.

Definition console_error (lbl : jsstring) (e : Exn) (w : World) : World :=
  {| messages := messages w; input := input w; isLoading := isLoading w;
     useStreaming := useStreaming w;
     console := console w ++ [{| label := lbl; logged := e |}];
     fetched := fetched w; ticks := ticks w |}.

Definition fetch (r : Request) (w : World) : World :=
  {| messages := messages w; input := input w; isLoading := isLoading w;
     useStreaming := useStreaming w; console := console w;
     fetched := fetched w ++ [r]; ticks := ticks w |}.

(** The state of a freshly mounted component. *)
Definition initial : World :=
  {| messages := []; input := []; isLoading := false; useStreaming := true;
     console := []; fetched := []; ticks := 0 |}.

(** [clearChat]. *)
Definition clearChat (w : World) : World := setMessages (fun _ => []) w.

(** [messages.findIndex(m => m.id === i)]; [None] stands for [-1]. *)
Definition findIndex (i : jsstring) (ms : list Message) : option nat :=
  fst <$> list_find (fun m => id m = i) ms.

(** The [setMessages] updater of the stream loop: copy the list, overwrite
    the message that carries the identifier or push a new one. *)
Definition upsert (messageObj : Message) (prev : list Message)
  : list Message :=
  let newMessages := prev in
  match findIndex (id messageObj) newMessages with
  | Some existingIndex => <[existingIndex := messageObj]> newMessages
  | None => newMessages ++ [messageObj]
  end.

(** What an iteration of [for (const line of lines)] does next. *)
Inductive flow := Continue | Break.

(** [data.type === "end"]. *)
Definition type_is_end (data : jsval) : bool :=
  match get data (js "type") with
  | Some (JStr s) => bool_decide (s = js "end")
  | _ => false
  end.

(** [data.model || "gemini-pro"]. *)
Definition model_or_default (data : jsval) : jsval :=
  match get data (js "model") with
  | Some m => if truthy m then m else JStr (js "gemini-pro")
  | None => JStr (js "gemini-pro")
  end.

Section Client.

(** The system clock: [clock k] is the [k]-th reading, in milliseconds. *)
Variable clock : nat -> Z.

(** [Date.now()] and [new Date()]. *)
Definition Date_now (w : World) : Z * World :=
  (clock (ticks w),
   {| messages := messages w; input := input w; isLoading := isLoading w;
      useStreaming := useStreaming w; console := console w;
      fetched := fetched w; ticks := S (ticks w) |}).

(** The body of [for (const line of lines)] for one line.  The decoder state
    is the local variable [assistantMessage] paired with the world;
    [assistantMessageId] is a constant of the loop. *)
Definition process_line (assistantMessageId : jsstring)
    (st : jsval * World) (line : jsstring) : (jsval * World) * flow :=
  let (assistantMessage, w) := st in
  if startsWith line (js "data: ") then
    match JSON_parse (slice 6 line) with
    | None =>
        ((assistantMessage,
          console_error (js "Error parsing stream data:")
            (SyntaxError (slice 6 line)) w), Continue)
    | Some data =>
        match get data (js "content") with
        | None =>
            ((assistantMessage,
              console_error (js "Error parsing stream data:")
                (TypeError (js "content")) w), Continue)
        | Some data_content =>
            if truthy data_content then
              let assistantMessage' := data_content in
              let (now, w') := Date_now w in
              let messageObj :=
                {| id := assistantMessageId;
                   content := assistantMessage';
                   sender := assistant;
                   timestamp := now;
                   model := Some (model_or_default data) |} in
              ((assistantMessage', setMessages (upsert messageObj) w'),
               Continue)
            else if type_is_end data then ((assistantMessage, w), Break)
            else ((assistantMessage, w), Continue)
        end
    end
  else ((assistantMessage, w), Continue).

(** [for (const line of lines) { ... }], left by [break]. *)
Fixpoint process_lines (assistantMessageId : jsstring)
    (st : jsval * World) (lines : list jsstring) : jsval * World :=
  match lines with
  | [] => st
  | line :: lines' =>
      match process_line assistantMessageId st line with
      | (st', Continue) => process_lines assistantMessageId st' lines'
      | (st', Break) => st'
      end
  end.

(** One iteration of [while (true)] on a chunk that was read. *)
Definition process_chunk (assistantMessageId : jsstring)
    (st : jsval * World) (value : list Byte.byte) : jsval * World :=
  let chunk := TextDecoder_decode value in
  let lines := split 10 chunk in
  process_lines assistantMessageId st lines.

(** The iterations of [while (true)] over the chunks read in turn. *)
Fixpoint read_loop (assistantMessageId : jsstring)
    (st : jsval * World) (values : list (list Byte.byte)) : jsval * World :=
  match values with
  | [] => st
  | value :: values' =>
      read_loop assistantMessageId
        (process_chunk assistantMessageId st value) values'
  end.

(** *** The outcomes of the awaited platform calls *)

(** What [await reader.read()] settles to. *)
Inductive ReadResult :=
| ReadValue (value : list Byte.byte)   (* [{ done: false, value }] *)
| ReadDone                             (* [{ done: true }] *)
| ReadRejected (message : jsstring).   (* the transport failed *)

(** How a response body ends. *)
Inductive Ending := Done | Failed (message : jsstring).

(** A response body as the reader delivers it: its chunks, then its end. *)
Record ReadableStream := { chunks : list (list Byte.byte); ending : Ending }.

(** What [await fetch("/api/chat/stream", ...)] settles to; [has_body] tells
    whether [response.body] is a stream or [null]. *)
Inductive StreamFetch :=
| StreamRejected (message : jsstring)
| StreamResponse (ok : bool) (has_body : bool).

(** What [await response.json()] settles to. *)
Inductive JsonResult :=
| JsonValue (v : jsval)
| JsonRejected (message : jsstring).

(** What [await fetch("/api/chat", ...)] and the [response.json()] that
    follows settle to. *)
Inductive SyncFetch :=
| SyncRejected (message : jsstring)
| SyncResponse (ok : bool) (json : JsonResult).

(** The messages of the errors the platform throws, and the text of a
    number. *)
Variable SyntaxError_message : jsstring -> jsstring.
Variable TypeError_message : jsstring -> jsstring.
Variable Number_toString : number -> jsstring.

(** [error.message]. *)
Definition message_of (e : Exn) : jsstring :=
  match e with
  | SyntaxError text => SyntaxError_message text
  | TypeError property => TypeError_message property
  | Error message => message
  | Rejected message => message
  end.

(** [ToString(v)], which [new Error(v)] applies to its argument; [None]
    is the [TypeError] thrown when an object cannot be converted to a
    primitive.  An object made by [JSON.parse] holds no function: when it has
    an own [toString] member the conversion finds no method to call and
    throws, and otherwise [Object.prototype.toString] answers.  An array is
    joined by [Array.prototype.join], which converts each element but
    [null] and [undefined] in turn. *)
Fixpoint ToString (v : jsval) : option jsstring :=
  match v with
  | JUndefined => Some (js "undefined")
  | JNull => Some (js "null")
  | JBool true => Some (js "true")
  | JBool false => Some (js "false")
  | JNum n => Some (Number_toString n)
  | JStr s => Some s
  | JArr elems =>
      (fix join (es : list jsval) : option jsstring :=
         match es with
         | [] => Some []
         | e :: es' =>
             match (match e with
                    | JUndefined | JNull => Some []
                    | _ => ToString e
                    end) with
             | None => None
             | Some text =>
                 match es' with
                 | [] => Some text
                 | _ :: _ =>
                     match join es' with
                     | Some others => Some (text ++ 44 :: others)
                     | None => None
                     end
                 end
             end
         end) elems
  | JObj members =>
      match lookup_last (js "toString") members with
      | Some _ => None
      | None => Some (js "[object Object]")
      end
  end.

Definition post (u : jsstring) (messageContent : jsstring) : Request :=
  {| url := u;
     method := js "POST";
     headers := [(js "Content-Type", js "application/json")];
     body := JObj [(js "message", JStr messageContent)] |}.

(** *** [sendMessageStream] *)

(** From the call to the first [await]: the request is sent. *)
Definition stream_start (messageContent : jsstring) (userMessage : Message)
    (w : World) : World :=
  fetch (post (js "/api/chat/stream") messageContent) w.

(** The [catch] block followed by the [finally] block. *)
Definition stream_catch (error : Exn) (w : World) : World :=
  let w1 := console_error (js "Error with streaming:") error w in
  let (t, w2) := Date_now w1 in
  let (now, w3) := Date_now w2 in
  let errorMessage :=
    {| id := toString (t + 1);
       content := JStr (js "Streaming error: " ++ message_of error
                        ++ js ". Please try again.");
       sender := assistant;
       timestamp := now;
       model := None |} in
  setIsLoading false (setMessages (fun prev => prev ++ [errorMessage]) w3).

(** Leaving the [try] block normally: the [finally] block. *)
Definition stream_finally (w : World) : World := setIsLoading false w.

(** A send that is suspended at [await reader.read()]: the constant
    [assistantMessageId] and the variable [assistantMessage]. *)
Record Reading := {
  assistantMessageId : jsstring;
  assistantMessage : jsval
}.

(** After the fetch settles, up to the first [reader.read()]: either the send
    is over ([inr]) or it is reading ([inl]). *)
Definition stream_fetched (r : StreamFetch) (w : World)
  : (Reading * World) + World :=
  match r with
  | StreamRejected message => inr (stream_catch (Rejected message) w)
  | StreamResponse ok has_body =>
      if negb ok then inr (stream_catch (Error (js "Failed to start stream")) w)
      else
        let (t, w') := Date_now w in
        let rd := {| assistantMessageId := toString (t + 1);
                     assistantMessage := JStr [] |} in
        if has_body then inl (rd, w') else inr (stream_finally w')
  end.

(** After a [reader.read()] settles, up to the next one. *)
Definition stream_read (rd : Reading) (r : ReadResult) (w : World)
  : (Reading * World) + World :=
  match r with
  | ReadDone => inr (stream_finally w)
  | ReadRejected message => inr (stream_catch (Rejected message) w)
  | ReadValue value =>
      let (am, w') :=
        process_chunk (assistantMessageId rd) (assistantMessage rd, w) value in
      inl ({| assistantMessageId := assistantMessageId rd;
              assistantMessage := am |}, w')
  end.

(** The whole of [sendMessageStream] when the fetch settles to [r] and the
    body, if any, delivers [s]. *)
Definition sendMessageStream (messageContent : jsstring)
    (userMessage : Message) (r : StreamFetch) (s : ReadableStream)
    (w : World) : World :=
  match stream_fetched r (stream_start messageContent userMessage w) with
  | inr w' => w'
  | inl (rd, w') =>
      let (am, w'') :=
        read_loop (assistantMessageId rd) (assistantMessage rd, w')
          (chunks s) in
      match ending s with
      | Done => stream_finally w''
      | Failed message => stream_catch (Rejected message) w''
      end
  end.

(** *** [sendMessageSync] *)

Definition sync_start (messageContent : jsstring) (w : World) : World :=
  fetch (post (js "/api/chat") messageContent) w.

Definition sync_catch (error : Exn) (w : World) : World :=
  let w1 := console_error (js "Error sending message:") error w in
  let (t, w2) := Date_now w1 in
  let (now, w3) := Date_now w2 in
  let errorMessage :=
    {| id := toString (t + 1);
       content := JStr (js "Sorry, I encountered an error: "
                        ++ message_of error ++ js ". Please try again.");
       sender := assistant;
       timestamp := now;
       model := None |} in
  setIsLoading false (setMessages (fun prev => prev ++ [errorMessage]) w3).

(** After the fetch and the [response.json()] settle, to the end. *)
Definition sync_fetched (r : SyncFetch) (w : World) : World :=
  match r with
  | SyncRejected message => sync_catch (Rejected message) w
  | SyncResponse _ (JsonRejected message) => sync_catch (Rejected message) w
  | SyncResponse false (JsonValue errorData) =>
      match get errorData (js "error") with
      | None => sync_catch (TypeError (js "error")) w
      | Some e =>
          if truthy e then
            match ToString e with
            | Some message => sync_catch (Error message) w
            | None => sync_catch (TypeError (js "toString")) w
            end
          else sync_catch (Error (js "Failed to send message")) w
      end
  | SyncResponse true (JsonValue data) =>
      let (t, w1) := Date_now w in
      match get data (js "response") with
      | None => sync_catch (TypeError (js "response")) w1
      | Some data_response =>
          let (now, w2) := Date_now w1 in
          let assistantMessage :=
            {| id := toString (t + 1);
               content := data_response;
               sender := assistant;
               timestamp := now;
               model := get data (js "model") |} in
          setIsLoading false
            (setMessages (fun prev => prev ++ [assistantMessage]) w2)
      end
  end.

Definition sendMessageSync (messageContent : jsstring) (r : SyncFetch)
    (w : World) : World :=
  sync_fetched r (sync_start messageContent w).

(** *** [sendMessage] *)

(** The call [sendMessage] awaits once it has accepted the input. *)
Inductive Call :=
| CallStream (messageContent : jsstring) (userMessage : Message)
| CallSync (messageContent : jsstring).

(** [sendMessage] up to the call it awaits; [None] is the early
    [return]. *)
Definition sendMessage (w : World) : World * option Call :=
  if negb (match trim (input w) with [] => false | _ :: _ => true end)
     || isLoading w
  then (w, None)
  else
    let (t, w1) := Date_now w in
    let (now, w2) := Date_now w1 in
    let userMessage :=
      {| id := toString t;
         content := JStr (trim (input w));
         sender := user;
         timestamp := now;
         model := None |} in
    let w3 := setMessages (fun prev => prev ++ [userMessage]) w2 in
    let currentInput := input w in
    let w4 := setIsLoading true (setInput [] w3) in
    if useStreaming w then (w4, Some (CallStream currentInput userMessage))
    else (w4, Some (CallSync currentInput)).

(** *** [handleKeyPress] and the guards of the view *)

(** The fields of a keyboard event the handler reads. *)
Record KeyboardEvent := { key : jsstring; shiftKey : bool }.

(** [handleKeyPress(e)]: what [sendMessage] returns when it is called, and
    whether [e.preventDefault()] was called. *)
Definition handleKeyPress (e : KeyboardEvent) (w : World)
  : (World * option Call) * bool :=
  if bool_decide (key e = js "Enter") && negb (shiftKey e)
  then (sendMessage w, true)
  else ((w, None), false).

(** [disabled={isLoading || !input.trim()}] of the Send button. *)
Definition send_disabled (w : World) : bool :=
  isLoading w
  || negb (match trim (input w) with [] => false | _ :: _ => true end).

(** [disabled={isLoading}] of the text input. *)
Definition input_disabled (w : World) : bool := isLoading w.

(** [messages.length === 0]: the welcome panel and its suggestion buttons
    are shown in place of the messages. *)
Definition shows_welcome (w : World) : bool :=
  match messages w with [] => true | _ :: _ => false end.

(** [message.model && message.sender === "assistant"]: the model badge is
    rendered under the message. *)
Definition shows_model_badge (m : Message) : bool :=
  match model m with
  | Some v => truthy v
  | None => false
  end
  && match sender m with assistant => true | user => false end.

(** *** The component as a transition system *)

(** A send suspended at an [await]. *)
Inductive Pending :=
| AwaitStreamFetch
| AwaitRead (rd : Reading)
| AwaitSyncFetch.

(** The component and the sends in flight.  Every event handler runs on the
    state committed by the events before it. *)
Record System := { world : World; pending : list Pending }.

Inductive Event :=
| EvSend                                    (* Send button or Enter key *)
| EvInput (s : jsstring)                    (* typing, suggestion button *)
| EvToggle (b : bool)                       (* the Streaming checkbox *)
| EvClear                                   (* the Clear Chat button *)
| EvStreamFetch (k : nat) (r : StreamFetch) (* send [k]: fetch settles *)
| EvRead (k : nat) (r : ReadResult)         (* send [k]: read settles *)
| EvSyncFetch (k : nat) (r : SyncFetch).    (* send [k]: fetch settles *)

(** Put back the [k]-th send after a step, or drop it when it is over. *)
Definition resume (k : nat) (ps : list Pending)
    (r : (Reading * World) + World) : System :=
  match r with
  | inl (rd, w) => {| world := w; pending := <[k := AwaitRead rd]> ps |}
  | inr w => {| world := w; pending := delete k ps |}
  end.

(** One event; [None] when the event cannot occur in this state. *)
Definition step (s : System) (e : Event) : option System :=
  let w := world s in
  match e with
  | EvSend =>
      match sendMessage w with
      | (w', None) => Some {| world := w'; pending := pending s |}
      | (w', Some (CallStream messageContent userMessage)) =>
          Some {| world := stream_start messageContent userMessage w';
                  pending := pending s ++ [AwaitStreamFetch] |}
      | (w', Some (CallSync messageContent)) =>
          Some {| world := sync_start messageContent w';
                  pending := pending s ++ [AwaitSyncFetch] |}
      end
  | EvInput text => Some {| world := setInput text w; pending := pending s |}
  | EvToggle b =>
      Some {| world := setUseStreaming b w; pending := pending s |}
  | EvClear => Some {| world := clearChat w; pending := pending s |}
  | EvStreamFetch k r =>
      match pending s !! k with
      | Some AwaitStreamFetch => Some (resume k (pending s) (stream_fetched r w))
      | _ => None
      end
  | EvRead k r =>
      match pending s !! k with
      | Some (AwaitRead rd) => Some (resume k (pending s) (stream_read rd r w))
      | _ => None
      end
  | EvSyncFetch k r =>
      match pending s !! k with
      | Some AwaitSyncFetch =>
          Some {| world := sync_fetched r w; pending := delete k (pending s) |}
      | _ => None
      end
  end.

(** The states reached from a state by a run of events. *)
Fixpoint run (s : System) (es : list Event) : option System :=
  match es with
  | [] => Some s
  | e :: es' =>
      match step s e with
      | Some s' => run s' es'
      | None => None
      end
  end.

End Client.

End ChatInterface.

(** ** The transport proxy: [src/app/api/chat/route.ts] and
       [src/app/api/chat/stream/route.ts] *)

(** What the two route handlers share: the platform values they exchange. *)
Module Http.

(** Values thrown inside the handlers' [try] blocks. *)
Inductive Exn :=
| Error (message : jsstring)         (* [new Error(message)] *)
| Rejected (message : jsstring).     (* a platform promise was rejected *)

(** [error.message]. *)
Definition message_of (e : Exn) : jsstring :=
  match e with Error message | Rejected message => message end.

(** What [await x.json()] and [await x.text()] settle to. *)
Inductive JsonResult := JsonValue (v : jsval) | JsonRejected (message : jsstring).
Inductive TextResult := TextValue (s : jsstring) | TextRejected (message : jsstring).

(** The arguments of [console.error]. *)
Inductive Logged := LogText (s : jsstring) | LogError (e : Exn).
Record LogEntry := { label : jsstring; logged : Logged }.

(** A [fetch(url, { method: "POST", headers, body: JSON.stringify(body) })]
    call. *)
Record Request := {
  url : jsstring;
  method : jsstring;
  req_headers : list (jsstring * jsstring);
  req_body : jsval
}.

Section Stream.

(** The byte streams of response bodies: the handlers pass them on and never
    look inside. *)
Variable Stream : Type.

(** A backend response: its status and what reading its body as text, as
    JSON or as a stream gives. *)
Record BackendResponse := {
  backend_status : Z;
  text : TextResult;
  json : JsonResult;
  backend_body : option Stream
}.

(** [response.ok]. *)
Definition ok (r : BackendResponse) : bool :=
  (200 <=? backend_status r) && (backend_status r <=? 299).

(** What [await fetch(...)] settles to. *)
Inductive FetchResult :=
| FetchRejected (message : jsstring)
| FetchResponse (r : BackendResponse).

(** The body of a response the handler returns. *)
Inductive Body :=
| BodyJson (v : jsval)               (* a JSON text of the value *)
| BodyStream (s : option Stream).    (* a stream passed on as it is *)

Record Response := {
  status : Z;
  headers : list (jsstring * jsstring);
  body : Body
}.

(** What a handler call returns and does. *)
Record Outcome := {
  response : Response;
  console : list LogEntry;
  fetched : list Request
}.

End Stream.

Arguments FetchRejected {Stream}.
Arguments FetchResponse {Stream}.
Arguments BodyJson {Stream}.
Arguments BodyStream {Stream}.
Arguments backend_status {Stream}.
Arguments text {Stream}.
Arguments json {Stream}.
Arguments backend_body {Stream}.
Arguments ok {Stream}.
Arguments status {Stream}.
Arguments headers {Stream}.
Arguments body {Stream}.
Arguments response {Stream}.
Arguments console {Stream}.
Arguments fetched {Stream}.

(** [process.env.BACKEND_URL || "http://localhost:8000"]. *)
Definition BACKEND_URL (env : option jsstring) : jsstring :=
  match env with
  | Some (c :: u) => c :: u
  | _ => js "http://localhost:8000"
  end.

(** The uniform error envelope [{ error, details }]. *)
Definition envelope (error details : jsstring) : jsval :=
  JObj [(js "error", JStr error); (js "details", JStr details)].

(** The message of the error thrown on a backend non-success status. *)
Definition backend_error (status : Z) (errorText : jsstring) : jsstring :=
  js "Backend responded with " ++ toString status ++ js ": " ++ errorText.

End Http.

(** *** [src/app/api/chat/route.ts] *)

Module ChatRoute.
Import Http.

Section Handler.

Variable Stream : Type.

(** The [catch] block. *)
Definition catch (error : Exn) (log : list LogEntry) (reqs : list Request)
  : Outcome Stream :=
  {| response :=
       {| status := 500;
          headers := [(js "Content-Type", js "application/json")];
          body := BodyJson (envelope (js "Failed to process chat request")
                              (message_of error)) |};
     console := log ++ [{| label := js "Chat API error:";
                           logged := LogError error |}];
     fetched := reqs |}.

(** [POST(request)], given the environment, what [request.json()] settles
    to and how the backend answers. *)
Definition POST (env : option jsstring) (request_json : JsonResult)
    (backend : Request -> FetchResult Stream) : Outcome Stream :=
  match request_json with
  | JsonRejected message => catch (Rejected message) [] []
  | JsonValue body =>
      let req := {| url := BACKEND_URL env ++ js "/chat";
                    method := js "POST";
                    req_headers := [(js "Content-Type", js "application/json")];
                    req_body := body |} in
      match backend req with
      | FetchRejected message => catch (Rejected message) [] [req]
      | FetchResponse response =>
          if negb (ok response) then
            match text response with
            | TextRejected message => catch (Rejected message) [] [req]
            | TextValue errorText =>
                catch (Error (backend_error (backend_status response) errorText))
                  [{| label := js "Backend error:";
                      logged := LogText errorText |}] [req]
            end
          else
            match json response with
            | JsonRejected message => catch (Rejected message) [] [req]
            | JsonValue data =>
                {| response :=
                     {| status := 200;
                        headers := [(js "Content-Type", js "application/json")];
                        body := BodyJson data |};
                   console := [];
                   fetched := [req] |}
            end
      end
  end.

End Handler.

End ChatRoute.

(** *** [src/app/api/chat/stream/route.ts] *)

Module StreamRoute.
Import Http.

Section Handler.

Variable Stream : Type.

(** The [catch] block. *)
Definition catch (error : Exn) (reqs : list Request) : Outcome Stream :=
  {| response :=
       {| status := 500;
          headers := [(js "Content-Type", js "application/json")];
          body := BodyJson (envelope (js "Failed to start stream")
                              (message_of error)) |};
     console := [{| label := js "Stream API error:";
                    logged := LogError error |}];
     fetched := reqs |}.

(** [POST(request)], given the environment, what [request.json()] settles
    to and how the backend answers. *)
Definition POST (env : option jsstring) (request_json : JsonResult)
    (backend : Request -> FetchResult Stream) : Outcome Stream :=
  match request_json with
  | JsonRejected message => catch (Rejected message) []
  | JsonValue body =>
      let req := {| url := BACKEND_URL env ++ js "/chat/stream";
                    method := js "POST";
                    req_headers := [(js "Content-Type", js "application/json")];
                    req_body := body |} in
      match backend req with
      | FetchRejected message => catch (Rejected message) [req]
      | FetchResponse response =>
          if negb (ok response) then
            match text response with
            | TextRejected message => catch (Rejected message) [req]
            | TextValue errorText =>
                catch (Error (backend_error (backend_status response) errorText))
                  [req]
            end
          else
            {| response :=
                 {| status := 200;
                    headers := [(js "Content-Type", js "text/plain");
                                (js "Cache-Control", js "no-cache");
                                (js "Connection", js "keep-alive")];
                    body := BodyStream (backend_body response) |};
               console := [];
               fetched := [req] |}
      end
  end.

End Handler.

End StreamRoute.

(** ** Notions used in the statements *)

Import ChatInterface.

(** *** The decoder *)

(** The content the view shows for the assistant turn [i]: that of the
    message [messages.findIndex] locates for [i]. *)
Definition displayed (i : jsstring) (ms : list Message) : option jsval :=
  (fun r => content (snd r)) <$> list_find (fun m => id m = i) ms.

(** The line is a [data: ] line whose remainder parses to [data]. *)
Definition is_frame (line : jsstring) (data : jsval) : Prop :=
  startsWith line (js "data: ") = true /\
  JSON_parse (slice 6 line) = Some data.

(** The line is a frame whose [content] the decoder takes: it is truthy. *)
Definition content_frame (line : jsstring) (c : jsval) : Prop :=
  exists data,
    is_frame line data /\ get data (js "content") = Some c /\ truthy c = true.

(** The line is a frame with a [content] member, whatever its value. *)
Definition has_content_field (line : jsstring) (c : jsval) : Prop :=
  exists members,
    is_frame line (JObj members) /\ lookup_last (js "content") members = Some c.

(** The line is an end-of-turn marker: a frame of type [end] that carries no
    truthy [content]. *)
Definition end_frame (line : jsstring) : Prop :=
  exists data c,
    is_frame line data /\ get data (js "content") = Some c /\
    truthy c = false /\ type_is_end data = true.

(** The line loop runs over all of [lines] without meeting a [break]. *)
Fixpoint completes (clock : nat -> Z) (i : jsstring) (st : jsval * World)
    (lines : list jsstring) : bool :=
  match lines with
  | [] => true
  | line :: lines' =>
      match process_line clock i st line with
      | (st', Continue) => completes clock i st' lines'
      | (_, Break) => false
      end
  end.

(** The message a content frame publishes. *)
Definition published (clock : nat -> Z) (i : jsstring) (data c : jsval)
    (w : World) : Message :=
  {| id := i; content := c; sender := assistant;
     timestamp := clock (ticks w);
     model := Some (model_or_default data) |}.

(** *** Chunk boundaries *)

(** The decoder state a chunk would leave behind, and the code points it
    completes, were the state kept for the next chunk. *)
Fixpoint utf8_feed (st : utf8_state) (bs : list Byte.byte)
  : utf8_state * list Z :=
  match bs with
  | [] => (st, [])
  | b :: bs' =>
      let (st', out) := utf8_handler st (Z.of_N (Byte.to_N b)) in
      let (st'', out') := utf8_feed st' bs' in
      (st'', out ++ out')
  end.

(** The chunk ends inside a multi-byte character. *)
Definition ends_mid_character (value : list Byte.byte) : bool :=
  negb (bytes_needed (fst (utf8_feed utf8_initial value)) =? 0).

(** The text of the chunk begins with a byte order mark. *)
Definition starts_with_mark (value : list Byte.byte) : bool :=
  match flat_map utf16_units (utf8_run utf8_initial value) with
  | c :: _ => c =? 0xFEFF
  | [] => false
  end.



(** The literal tokens the lexer is matching are made of small letters. *)
Definition literal_letters (st : lex_mode * list token) : Prop :=
  match fst st with
  | LLit rest _ => Forall (fun x => 97 <= x <= 122) rest
  | _ => True
  end.

(** *** The send guard *)

(** The sends in flight are as many as the busy flag says. *)
Definition in_flight_matches_flag (s : System) : Prop :=
  length (pending s) = if isLoading (world s) then 1%nat else 0%nat.

(** The events by which the reader delivers a response body to send 0. *)
Definition read_events (s : ReadableStream) : list Event :=
  map (fun value => EvRead 0 (ReadValue value)) (chunks s)
  ++ [EvRead 0 (match ending s with
                | Done => ReadDone
                | Failed message => ReadRejected message
                end)].

(** *** The transport proxy *)

(** The requests the two handlers forward to the backend. *)
Definition chat_request (env : option jsstring) (body : jsval)
  : Http.Request :=
  {| Http.url := Http.BACKEND_URL env ++ js "/chat";
     Http.method := js "POST";
     Http.req_headers := [(js "Content-Type", js "application/json")];
     Http.req_body := body |}.

Definition stream_request (env : option jsstring) (body : jsval)
  : Http.Request :=
  {| Http.url := Http.BACKEND_URL env ++ js "/chat/stream";
     Http.method := js "POST";
     Http.req_headers := [(js "Content-Type", js "application/json")];
     Http.req_body := body |}.

(** A response that carries the uniform error envelope with status 500: a
    JSON object of exactly two members, the texts [error] and [details]. *)
Definition is_error_envelope {Stream : Type} (r : Http.Response Stream)
  : Prop :=
  Http.status r = 500 /\
  exists error details,
    Http.body r
    = Http.BodyJson (JObj [(js "error", JStr error);
                           (js "details", JStr details)]).

(** *** Data of the examples *)

(** A source literal written with apostrophes for its double quotes. *)
Fixpoint quoted (s : string) : string :=
  match s with
  | EmptyString => EmptyString
  | String a s' =>
      String (if Ascii.eqb a "'"%char then ascii_of_nat 34 else a) (quoted s')
  end.

(** The bytes of an ASCII text, and the text followed by a line feed. *)
Definition bytes (s : string) : list Byte.byte :=
  list_byte_of_string (quoted s).
Definition bytes_ln (s : string) : list Byte.byte := bytes s ++ [Byte.x0a].

(** A clock that advances by one millisecond per reading, and one that is
    read several times within one millisecond. *)
Definition clock0 (k : nat) : Z := 1000 + Z.of_nat k.
Definition clock_same_ms (k : nat) : Z := 1000.

(** Platform texts. *)
Definition SyntaxError_message0 (text : jsstring) : jsstring :=
  js "Unexpected token".
Definition TypeError_message0 (property : jsstring) : jsstring :=
  js "Cannot read properties of null".
Definition Number_toString0 (n : number) : jsstring := js "0".

(** The three chunks of the scenario. *)
Definition chunk_Hel : list Byte.byte := bytes_ln "data: {'content':'Hel'}".
Definition chunk_Hello : list Byte.byte := bytes_ln "data: {'content':'Hello'}".
Definition chunk_end : list Byte.byte := bytes_ln "data: {'type':'end'}".

Definition scenario : ReadableStream :=
  {| chunks := [chunk_Hel; chunk_Hello; chunk_end]; ending := Done |}.


(** A backend that gives every request the same answer, an answer of
    status 503 and one of status 200. *)
Definition backend0 (r : Http.BackendResponse (list (list Byte.byte)))
    (req : Http.Request) : Http.FetchResult (list (list Byte.byte)) :=
  Http.FetchResponse r.

Definition unavailable : Http.BackendResponse (list (list Byte.byte)) :=
  {| Http.backend_status := 503;
     Http.text := Http.TextValue (js "Service Unavailable");
     Http.json := Http.JsonRejected (js "Unexpected token");
     Http.backend_body := Some [bytes "Service Unavailable"] |}.

Definition available : Http.BackendResponse (list (list Byte.byte)) :=
  {| Http.backend_status := 200;
     Http.text := Http.TextValue (js (quoted "{'response':'Hello'}"));
     Http.json := Http.JsonValue (JObj [(js "response", JStr (js "Hello"))]);
     Http.backend_body := Some [chunk_Hel; chunk_Hello; chunk_end] |}.

(** *** Further notions *)

(** The text is made of white space only. *)
Definition blank (s : jsstring) : bool := forallb is_trim_space s.

(** [lines.join(sep)] for a one-code-unit separator. *)
Fixpoint join (sep : Z) (lines : list jsstring) : jsstring :=
  match lines with
  | [] => []
  | l :: lines' =>
      match lines' with
      | [] => l
      | _ :: _ => l ++ sep :: join sep lines'
      end
  end.

(** The messages that do not carry the identifier [i], in order. *)
Definition others (i : jsstring) (ms : list Message) : list Message :=
  filter (fun m => id m <> i) ms.

(** Every reading of the clock is later than the one before. *)
Definition increasing (clock : nat -> Z) : Prop :=
  forall k, clock k < clock (S k).

(** The identifier is the text of a number that the next reading of the
    clock is not below. *)
Definition id_below (clock : nat -> Z) (w : World) (i : jsstring) : Prop :=
  exists n, i = toString n /\ n <= clock (ticks w).

(** The identifiers of the messages, and those of the sends that are
    reading, are below the next reading of the clock. *)
Definition messages_below (clock : nat -> Z) (w : World) : Prop :=
  Forall (fun m => id_below clock w (id m)) (messages w).

Definition pending_below (clock : nat -> Z) (w : World) (ps : list Pending)
  : Prop :=
  Forall (fun p => match p with
                   | AwaitRead rd =>
                       id_below clock w (assistantMessageId rd)
                   | _ => True
                   end) ps.

(** All identifiers in use, those of the messages and those of the sends
    that are reading, are below the next reading of the clock. *)
Definition ids_below (clock : nat -> Z) (s : System) : Prop :=
  Forall (fun m => id_below clock (world s) (id m)) (messages (world s)) /\
  Forall (fun p => match p with
                   | AwaitRead rd =>
                       id_below clock (world s) (assistantMessageId rd)
                   | _ => True
                   end) (pending s).

(** The bytes are all ASCII. *)
Definition is_ascii (bs : list Byte.byte) : bool :=
  forallb (fun b => Z.of_N (Byte.to_N b) <=? 0x7F) bs.


(** What the client's [fetch] settles to when the streaming handler returns
    the response [r]. *)
Definition seen_by_stream_client {Stream : Type} (r : Http.Response Stream)
  : StreamFetch :=
  StreamResponse ((200 <=? Http.status r) && (Http.status r <=? 299)) true.

(** ** The platform models on examples *)

Example decode_ascii :
  TextDecoder_decode (bytes "data: hi") = js "data: hi".
Proof. vm_compute; reflexivity. Qed.

Example decode_four_bytes :
  TextDecoder_decode [Byte.xf0; Byte.x9f; Byte.x98; Byte.x80]
  = [0xD83D; 0xDE00].
Proof. vm_compute; reflexivity. Qed.

Example decode_overlong :
  TextDecoder_decode [Byte.xc0; Byte.x80; Byte.x41] = [0xFFFD; 0xFFFD; 0x41].
Proof. vm_compute; reflexivity. Qed.

Example decode_surrogate :
  TextDecoder_decode [Byte.xed; Byte.xa0; Byte.x80]
  = [0xFFFD; 0xFFFD; 0xFFFD].
Proof. vm_compute; reflexivity. Qed.

Example decode_mark :
  TextDecoder_decode [Byte.xef; Byte.xbb; Byte.xbf; Byte.x41] = [0x41].
Proof. vm_compute; reflexivity. Qed.

Example split_lines :
  split 10 (js "a" ++ [10] ++ js "b" ++ [10]) = [js "a"; js "b"; []].
Proof. vm_compute; reflexivity. Qed.

Example parse_nested :
  JSON_parse (js (quoted " {'a': [1, -2.50e-3, true, null, 'x\n'], 'a': {}} "))
  = Some (JObj [(js "a",
                 JArr [JNum {| neg := false; mant := 1; exp10 := 0 |};
                       JNum {| neg := true; mant := 250; exp10 := -5 |};
                       JBool true; JNull; JStr [120; 10]]);
                (js "a", JObj [])]).
Proof. vm_compute; reflexivity. Qed.

Example parse_rejects :
  JSON_parse (js "[1,]") = None /\ JSON_parse (js "01") = None /\
  JSON_parse (js "{}{}") = None /\ JSON_parse (js "nul") = None /\
  JSON_parse (js "1.") = None /\ JSON_parse [] = None /\
  JSON_parse (js (quoted "{'a' 1}")) = None /\
  JSON_parse (js (quoted "'a")) = None.
Proof. repeat split; vm_compute; reflexivity. Qed.

Example last_binding_wins :
  (fun data => get data (js "a")) <$> JSON_parse (js (quoted "{'a':1,'a':'x'}"))
  = Some (Some (JStr (js "x"))).
Proof. vm_compute; reflexivity. Qed.

Example truthy_values :
  truthy <$> JSON_parse (js "0.000") = Some false /\
  truthy <$> JSON_parse (js "-0e10") = Some false /\
  truthy <$> JSON_parse (js "1e-400") = Some false /\
  truthy <$> JSON_parse (js "5e-324") = Some true /\
  truthy <$> JSON_parse (js "[]") = Some true /\
  truthy <$> JSON_parse (js (quoted "''")) = Some false /\
  truthy <$> JSON_parse (js (quoted "'0'")) = Some true.
Proof. repeat split; vm_compute; reflexivity. Qed.

Example trim_spaces : trim (js "  a b  ") = js "a b".
Proof. vm_compute; reflexivity. Qed.

Example toString_clock : toString 1700000000001 = js "1700000000001".
Proof. vm_compute; reflexivity. Qed.

(** ** The decoder, line by line *)

Section Decoder.

Variable clock : nat -> Z.
Variable i : jsstring.

Lemma process_lines_cons_continue st st' line lines :
  process_line clock i st line = (st', Continue) ->
  process_lines clock i st (line :: lines) = process_lines clock i st' lines.
Proof. intros H. simpl. now rewrite H. Qed.

Lemma process_lines_cons_break st st' line lines :
  process_line clock i st line = (st', Break) ->
  process_lines clock i st (line :: lines) = st'.
Proof. intros H. simpl. now rewrite H. Qed.

Lemma process_lines_app st pre post :
  completes clock i st pre = true ->
  process_lines clock i st (pre ++ post)
  = process_lines clock i (process_lines clock i st pre) post.
Proof.
  revert st. induction pre as [|l pre IH]; intros st H; simpl in *.
  - reflexivity.
  - destruct (process_line clock i st l) as [st' [|]].
    + now apply IH.
    + discriminate.
Qed.

Lemma read_loop_cons st value values :
  read_loop clock i st (value :: values)
  = read_loop clock i
      (process_lines clock i st (split 10 (TextDecoder_decode value))) values.
Proof. reflexivity. Qed.

End Decoder.

(** ** What one line does *)

Section Lines.

Variable clock : nat -> Z.
Variable i : jsstring.

Lemma process_line_content am w line data c :
  is_frame line data -> get data (js "content") = Some c -> truthy c = true ->
  process_line clock i (am, w) line
  = ((c, setMessages (upsert (published clock i data c w))
           (snd (Date_now clock w))), Continue).
Proof.
  intros [Hp Hj] Hc Ht. unfold process_line. now rewrite Hp, Hj, Hc, Ht.
Qed.

Lemma process_line_no_prefix st line :
  startsWith line (js "data: ") = false ->
  process_line clock i st line = (st, Continue).
Proof.
  intros H. destruct st as [am w]. unfold process_line. now rewrite H.
Qed.

Lemma process_line_end st line :
  end_frame line -> process_line clock i st line = (st, Break).
Proof.
  intros (data & c & [Hp Hj] & Hc & Ht & He). destruct st as [am w].
  unfold process_line. now rewrite Hp, Hj, Hc, Ht, He.
Qed.


Lemma findIndex_Some k (ms : list Message) :
  findIndex i ms = Some k ->
  exists m, list_find (fun m => id m = i) ms = Some (k, m).
Proof.
  unfold findIndex. destruct (list_find _ ms) as [[k' m]|] eqn:E; simpl.
  - intros [= ->]. now exists m.
  - discriminate.
Qed.

Lemma findIndex_None (ms : list Message) :
  findIndex i ms = None -> list_find (fun m => id m = i) ms = None.
Proof.
  unfold findIndex. destruct (list_find _ ms) as [[k' m]|]; simpl;
    [discriminate | reflexivity].
Qed.

(** After the updater, the message located for [i] is the new one. *)
Lemma displayed_upsert (m : Message) (ms : list Message) :
  id m = i -> displayed i (upsert m ms) = Some (content m).
Proof.
  intros Hid. unfold upsert, displayed. rewrite Hid.
  destruct (findIndex i ms) as [k|] eqn:E.
  - apply findIndex_Some in E as [m0 E].
    apply list_find_Some in E as (Hk & _ & Hleast).
    assert (Hf : list_find (fun m => id m = i) (<[k := m]> ms) = Some (k, m)).
    { apply list_find_insert_Some. right. left.
      repeat split; try assumption. eapply lookup_lt_Some; eassumption. }
    now rewrite Hf.
  - apply findIndex_None in E.
    rewrite (list_find_app_r _ _ _ E). simpl.
    destruct (decide (id m = i)) as [_|n]; [reflexivity | contradiction].
Qed.

Lemma completes_content_frames st lines :
  Forall (fun line => exists c, content_frame line c) lines ->
  completes clock i st lines = true.
Proof.
  intros H. revert st. induction H as [|l ls [c (data & Hf & Hc & Ht)] _ IH];
    intros [am w]; cbn [completes].
  - reflexivity.
  - rewrite (process_line_content am w l data c Hf Hc Ht). apply IH.
Qed.

End Lines.

(** ** Properties of the line loop *)

(** C8: a line that does not begin with the literal prefix [data: ] leaves
    the decoder state (the variable [assistantMessage]) and the world, the
    message list included, as they were, and the loop goes on with the next
    line. *)
Theorem non_data_line_is_ignored
    (clock : nat -> Z) (i : jsstring) (st : jsval * World) (line : jsstring) :
  startsWith line (js "data: ") = false ->
  process_line clock i st line = (st, Continue).
Proof.
  intros Hprefix. destruct st as [assistantMessage w].
  unfold process_line. rewrite Hprefix. reflexivity.
Qed.

Lemma non_data_line_is_ignored_witness :
  startsWith (js "event: ping") (js "data: ") = false /\
  process_line clock0 (js "1001") (JStr [], initial) (js "event: ping")
  = ((JStr [], initial), Continue).
Proof.
  split; [reflexivity | apply non_data_line_is_ignored; reflexivity].
Defined.

(** C10: a frame that parses and whose [content] member is the empty string
    publishes nothing: the decoder state and the world, the message list
    included, are unchanged by the line, so no assistant message comes from
    it. *)
Theorem empty_content_publishes_nothing
    (clock : nat -> Z) (i : jsstring) (st : jsval * World) (line : jsstring)
    (members : list (jsstring * jsval)) :
  is_frame line (JObj members) ->
  lookup_last (js "content") members = Some (JStr []) ->
  fst (process_line clock i st line) = st.
Proof.
  intros [Hp Hj] Hc. destruct st as [am w]. unfold process_line.
  rewrite Hp, Hj. unfold get at 1. rewrite Hc. simpl truthy. cbv iota.
  now destruct (type_is_end (JObj members)).
Qed.

Lemma empty_content_publishes_nothing_witness :
  let line := js (quoted "data: {'content':''}") in
  let members := [(js "content", JStr [])] in
  is_frame line (JObj members) /\
  lookup_last (js "content") members = Some (JStr []) /\
  fst (process_line clock0 (js "1001") (JStr [], initial) line)
  = (JStr [], initial).
Proof.
  assert (Hf : is_frame (js (quoted "data: {'content':''}"))
                 (JObj [(js "content", JStr [])])).
  { split; vm_compute; reflexivity. }
  assert (Hc : lookup_last (js "content") [(js "content", JStr [])]
               = Some (JStr [])).
  { vm_compute; reflexivity. }
  split; [exact Hf | split; [exact Hc |]].
  exact (empty_content_publishes_nothing clock0 (js "1001")
           (JStr [], initial) _ _ Hf Hc).
Defined.






(** C2, as amended: a frame whose [content] is truthy (for a string: not
    empty) replaces the content.  Whatever lines came before it, once the
    decoder has processed the frame both the variable [assistantMessage] and
    the content shown for the assistant turn are the frame's [content]; and
    over any sequence of such frames, after frame [k] they are the [content]
    of frame [k]. *)
Theorem content_frame_replaces_content
    (clock : nat -> Z) (i : jsstring) (st : jsval * World) :
  (forall pre line c,
     completes clock i st pre = true ->
     content_frame line c ->
     exists w',
       process_lines clock i st (pre ++ [line]) = (c, w') /\
       displayed i (messages w') = Some c) /\
  (forall lines contents k c,
     Forall2 content_frame lines contents ->
     contents !! k = Some c ->
     exists w',
       process_lines clock i st (take (S k) lines) = (c, w') /\
       displayed i (messages w') = Some c).
Proof.
  assert (Hstep : forall pre line c,
            completes clock i st pre = true ->
            content_frame line c ->
            exists w',
              process_lines clock i st (pre ++ [line]) = (c, w') /\
              displayed i (messages w') = Some c).
  { intros pre line c Hpre (data & Hf & Hg & Ht).
    rewrite (process_lines_app _ _ _ _ _ Hpre).
    destruct (process_lines clock i st pre) as [am w].
    rewrite (process_lines_cons_continue _ _ _ _ _ _
               (process_line_content clock i am w line data c Hf Hg Ht)).
    eexists. split; [reflexivity |].
    cbn [setMessages messages]. now apply displayed_upsert. }
  split; [exact Hstep |].
  intros lines contents k c HF Hk.
  destruct (Forall2_lookup_r _ _ _ _ _ HF Hk) as (line & Hline & Hc).
  rewrite (take_S_r _ _ _ Hline).
  apply Hstep; [| exact Hc].
  apply completes_content_frames, Forall_take.
  eapply Forall2_Forall_l; [exact HF |].
  apply Forall_forall. intros; eauto.
Qed.

Lemma content_frame_replaces_content_witness :
  let l1 := js (quoted "data: {'content':'Hel'}") in
  let l2 := js (quoted "data: {'content':'Hello'}") in
  Forall2 content_frame [l1; l2] [JStr (js "Hel"); JStr (js "Hello")] /\
  exists w',
    process_lines clock0 (js "1001") (JStr [], initial) [l1; l2]
    = (JStr (js "Hello"), w') /\
    displayed (js "1001") (messages w') = Some (JStr (js "Hello")).
Proof.
  assert (HF : Forall2 content_frame
                 [js (quoted "data: {'content':'Hel'}");
                  js (quoted "data: {'content':'Hello'}")]
                 [JStr (js "Hel"); JStr (js "Hello")]).
  { repeat constructor.
    - eexists. repeat split; vm_compute; reflexivity.
    - eexists. repeat split; vm_compute; reflexivity. }
  split; [exact HF |].
  exact (proj2 (content_frame_replaces_content clock0 (js "1001")
                  (JStr [], initial))
           _ _ 1%nat (JStr (js "Hello")) HF eq_refl).
Defined.

(** C2 as first stated fails: a frame whose [content] member is the empty
    string is a frame with a [content] field, yet after it the content shown
    is still that of the frame before. *)
Lemma empty_content_frame_keeps_prior_content :
  let l1 := js (quoted "data: {'content':'Hel'}") in
  let l2 := js (quoted "data: {'content':''}") in
  let st := process_lines clock0 (js "1001") (JStr [], initial) [l1; l2] in
  has_content_field l1 (JStr (js "Hel")) /\
  has_content_field l2 (JStr []) /\
  displayed (js "1001") (messages (snd st)) = Some (JStr (js "Hel")) /\
  displayed (js "1001") (messages (snd st)) <> Some (JStr []).
Proof.
  split; [| split; [| split]].
  - eexists. split; [split |]; vm_compute; reflexivity.
  - eexists. split; [split |]; vm_compute; reflexivity.
  - vm_compute; reflexivity.
  - vm_compute. discriminate.
Qed.

(** ** The scenario of three chunks *)

Lemma upsert_fresh (i : jsstring) (m : Message) (ms : list Message) :
  id m = i -> findIndex i ms = None -> upsert m ms = ms ++ [m].
Proof. intros Hid H. unfold upsert. now rewrite Hid, H. Qed.

Lemma upsert_last (i : jsstring) (m m' : Message) (ms : list Message) :
  id m = i -> id m' = i -> findIndex i ms = None ->
  upsert m' (ms ++ [m]) = ms ++ [m'].
Proof.
  intros Hm Hm' H. unfold upsert. rewrite Hm'.
  assert (E : findIndex i (ms ++ [m]) = Some (length ms)).
  { unfold findIndex. apply findIndex_None in H.
    rewrite (list_find_app_r _ _ _ H). simpl.
    destruct (decide (id m = i)) as [_|n]; [reflexivity | contradiction]. }
  rewrite E. rewrite insert_app_r_alt by lia.
  now rewrite Nat.sub_diag.
Qed.

Lemma scenario_lines :
  split 10 (TextDecoder_decode chunk_Hel)
  = [js (quoted "data: {'content':'Hel'}"); []] /\
  split 10 (TextDecoder_decode chunk_Hello)
  = [js (quoted "data: {'content':'Hello'}"); []] /\
  split 10 (TextDecoder_decode chunk_end)
  = [js (quoted "data: {'type':'end'}"); []].
Proof. repeat split; vm_compute; reflexivity. Qed.

Lemma scenario_frames :
  is_frame (js (quoted "data: {'content':'Hel'}"))
    (JObj [(js "content", JStr (js "Hel"))]) /\
  is_frame (js (quoted "data: {'content':'Hello'}"))
    (JObj [(js "content", JStr (js "Hello"))]) /\
  end_frame (js (quoted "data: {'type':'end'}")).
Proof.
  split; [| split].
  - split; vm_compute; reflexivity.
  - split; vm_compute; reflexivity.
  - exists (JObj [(js "type", JStr (js "end"))]), JUndefined.
    repeat split; vm_compute; reflexivity.
Qed.

(** The read loop over the three chunks, from a state in which no message
    carries the identifier of the turn. *)
Lemma scenario_read_loop (clock : nat -> Z) (i : jsstring) (am : jsval)
    (w : World) :
  findIndex i (messages w) = None ->
  exists w',
    read_loop clock i (am, w) (chunks scenario) = (JStr (js "Hello"), w') /\
    messages w'
    = messages w ++ [{| id := i; content := JStr (js "Hello");
                        sender := assistant;
                        timestamp := clock (S (ticks w));
                        model := Some (JStr (js "gemini-pro")) |}] /\
    isLoading w' = isLoading w /\ input w' = input w.
Proof.
  intros Hfresh.
  destruct scenario_lines as (L1 & L2 & L3).
  destruct scenario_frames as (F1 & F2 & F3).
  cbn [scenario chunks].
  rewrite read_loop_cons, L1.
  rewrite (process_lines_cons_continue _ _ _ _ _ _
             (process_line_content clock i am w _ _ _ F1 eq_refl eq_refl)).
  rewrite (process_lines_cons_continue _ _ _ _ _ _
             (process_line_no_prefix clock i _ [] eq_refl)).
  cbn [process_lines].
  rewrite read_loop_cons, L2.
  rewrite (process_lines_cons_continue _ _ _ _ _ _
             (process_line_content clock i _ _ _ _ _ F2 eq_refl eq_refl)).
  rewrite (process_lines_cons_continue _ _ _ _ _ _
             (process_line_no_prefix clock i _ [] eq_refl)).
  cbn [process_lines].
  rewrite read_loop_cons, L3.
  rewrite (process_lines_cons_break _ _ _ _ _ _
             (process_line_end clock i _ _ F3)).
  cbn [read_loop].
  eexists. split; [reflexivity |].
  cbn [setMessages Date_now snd messages isLoading input ticks published].
  split; [| split; reflexivity].
  rewrite (upsert_fresh i _ (messages w)) by first [reflexivity | exact Hfresh].
  rewrite (upsert_last i) by first [reflexivity | exact Hfresh].
  reflexivity.
Qed.

(** C3, as amended: from any state in which no message carries the
    identifier chosen for the turn, the three chunks leave the conversation
    with exactly one more message, the assistant message of the turn with
    content [Hello]: the second content frame overwrote the message the
    first one pushed. *)
Theorem scenario_displays_Hello
    (clock : nat -> Z) (SyntaxError_message TypeError_message : jsstring -> jsstring)
    (messageContent : jsstring) (userMessage : Message) (w : World) :
  let i := toString (clock (ticks w) + 1) in
  findIndex i (messages w) = None ->
  let w' := sendMessageStream clock SyntaxError_message TypeError_message
              messageContent userMessage (StreamResponse true true)
              scenario w in
  messages w'
  = messages w ++ [{| id := i; content := JStr (js "Hello");
                      sender := assistant;
                      timestamp := clock (S (S (ticks w)));
                      model := Some (JStr (js "gemini-pro")) |}] /\
  displayed i (messages w') = Some (JStr (js "Hello")) /\
  isLoading w' = false.
Proof.
  intros i Hfresh.
  unfold sendMessageStream, stream_start, stream_fetched.
  cbn [negb Date_now fetch ticks assistantMessageId assistantMessage].
  fold i.
  match goal with
  | |- context [read_loop clock i (?am, ?w1) (chunks scenario)] =>
      destruct (scenario_read_loop clock i am w1 Hfresh)
        as (w2 & -> & Hm & _ & _)
  end.
  cbn [ending scenario stream_finally setIsLoading messages isLoading].
  cbn [messages ticks fetch] in Hm. rewrite Hm.
  split; [reflexivity | split; [| reflexivity]].
  match goal with
  | |- displayed i (_ ++ [?m]) = _ =>
      rewrite <- (upsert_fresh i m (messages w) eq_refl Hfresh);
      exact (displayed_upsert i m _ eq_refl)
  end.
Qed.

Lemma scenario_displays_Hello_witness :
  let w' := sendMessageStream clock0 SyntaxError_message0 TypeError_message0
              (js "hi")
              {| id := js "999"; content := JStr (js "hi"); sender := user;
                 timestamp := 999; model := None |}
              (StreamResponse true true) scenario initial in
  findIndex (toString (clock0 (ticks initial) + 1)) (messages initial) = None /\
  displayed (js "1001") (messages w') = Some (JStr (js "Hello")) /\
  length (messages w') = 1%nat.
Proof.
  assert (H : findIndex (toString (clock0 (ticks initial) + 1))
                (messages initial) = None) by reflexivity.
  pose proof (scenario_displays_Hello clock0 SyntaxError_message0
                TypeError_message0 (js "hi")
                {| id := js "999"; content := JStr (js "hi"); sender := user;
                   timestamp := 999; model := None |} initial H)
    as (Hm & Hd & _).
  split; [exact H | split; [exact Hd |]].
  rewrite Hm. reflexivity.
Defined.

(** C3 as first stated fails in a state the component reaches when the
    clock is read several times within one millisecond: a failed send leaves
    an error message whose identifier the next send chooses again, so the
    first content frame overwrites that message and the three chunks add no
    message at all. *)
Lemma scenario_overwrites_on_identifier_clash :
  let run0 := run clock_same_ms SyntaxError_message0 TypeError_message0
                Number_toString0 in
  exists w w1 userMessage,
    run0 {| world := initial; pending := [] |}
      [EvInput (js "hi"); EvSend;
       EvStreamFetch 0 (StreamRejected (js "offline")); EvInput (js "hi")]
    = Some {| world := w; pending := [] |} /\
    sendMessage clock_same_ms w
    = (w1, Some (CallStream (js "hi") userMessage)) /\
    let w' := sendMessageStream clock_same_ms SyntaxError_message0
                TypeError_message0 (js "hi") userMessage
                (StreamResponse true true) scenario w1 in
    length (messages w1) = 3%nat /\
    length (messages w') = 3%nat /\
    sender <$> (messages w1) = [user; assistant; user] /\
    sender <$> (messages w') = [user; assistant; user].
Proof.
  do 3 eexists.
  split; [vm_compute; reflexivity |].
  split; [vm_compute; reflexivity |].
  repeat split; vm_compute; reflexivity.
Qed.

(** ** A transport failure in mid-stream *)

(** C6: when a [reader.read()] is rejected the send is over: the [catch]
    block appends exactly one assistant-authored error message behind the
    messages published so far, which stay as they were, and the busy flag is
    cleared.  This holds for the single step at the failing read and for the
    whole of [sendMessageStream] over a body that fails after any chunks. *)
Theorem transport_failure_appends_one_error
    (clock : nat -> Z) (SyntaxError_message TypeError_message : jsstring -> jsstring)
    (message : jsstring) :
  let error_of (w : World) : Message :=
    {| id := toString (clock (ticks w) + 1);
       content := JStr (js "Streaming error: " ++ message
                        ++ js ". Please try again.");
       sender := assistant;
       timestamp := clock (S (ticks w));
       model := None |} in
  (forall rd w,
     exists w',
       stream_read clock SyntaxError_message TypeError_message rd
         (ReadRejected message) w = inr w' /\
       messages w' = messages w ++ [error_of w] /\
       isLoading w' = false) /\
  (forall messageContent userMessage values w,
     let i := toString (clock (ticks w) + 1) in
     let w1 := snd (Date_now clock
                      (stream_start messageContent userMessage w)) in
     let w2 := snd (read_loop clock i (JStr [], w1) values) in
     let w' := sendMessageStream clock SyntaxError_message TypeError_message
                 messageContent userMessage (StreamResponse true true)
                 {| chunks := values; ending := Failed message |} w in
     messages w' = messages w2 ++ [error_of w2] /\
     isLoading w' = false).
Proof.
  intros error_of. split.
  - intros rd w. eexists. split; [reflexivity |]. split; reflexivity.
  - intros messageContent userMessage values w i w1 w2 w'.
    subst w'. unfold sendMessageStream, stream_fetched.
    cbn [negb Date_now assistantMessageId assistantMessage chunks ending].
    subst w2 w1 i. unfold stream_start.
    cbn [Date_now snd fetch ticks].
    destruct (read_loop _ _ _ values) as [am w2].
    split; reflexivity.
Qed.

(** ** The send guard *)

Section Guard.

Variable clock : nat -> Z.
Variables SyntaxError_message TypeError_message : jsstring -> jsstring.
Variable Number_toString : number -> jsstring.

Lemma sendMessage_busy w : isLoading w = true -> sendMessage clock w = (w, None).
Proof.
  intros H. unfold sendMessage. rewrite H.
  now rewrite orb_true_r.
Qed.

Lemma sendMessage_cases w w' call :
  sendMessage clock w = (w', call) ->
  (call = None /\ w' = w) \/
  (exists c, call = Some c /\ isLoading w = false /\ isLoading w' = true).
Proof.
  unfold sendMessage.
  destruct (negb _ || isLoading w) eqn:E.
  - intros [= <- <-]. now left.
  - apply orb_false_elim in E as [_ E]. right.
    cbn [Date_now] in H. destruct (useStreaming w); injection H as <- <-;
      eexists; repeat split; assumption || reflexivity.
Qed.

Lemma process_line_isLoading i st line :
  isLoading (snd (fst (process_line clock i st line))) = isLoading (snd st).
Proof.
  destruct st as [am w]. unfold process_line.
  destruct (startsWith line _); [| reflexivity].
  destruct (JSON_parse _) as [data|]; [| reflexivity].
  destruct (get data _) as [c|]; [| reflexivity].
  destruct (truthy c); [reflexivity |].
  now destruct (type_is_end data).
Qed.

Lemma process_lines_isLoading i st lines :
  isLoading (snd (process_lines clock i st lines)) = isLoading (snd st).
Proof.
  revert st. induction lines as [|l ls IH]; intros st; cbn [process_lines].
  - reflexivity.
  - pose proof (process_line_isLoading i st l) as H.
    destruct (process_line clock i st l) as [st' [|]]; cbn [fst] in H.
    + now rewrite IH.
    + exact H.
Qed.

Lemma stream_catch_isLoading e w :
  isLoading (stream_catch clock SyntaxError_message TypeError_message e w)
  = false.
Proof. reflexivity. Qed.

Lemma sync_fetched_isLoading r w :
  isLoading (sync_fetched clock SyntaxError_message TypeError_message
               Number_toString r w) = false.
Proof.
  destruct r as [m | [|] [v | m]]; cbn [sync_fetched]; try reflexivity.
  - cbn [Date_now]. destruct (get v _); reflexivity.
  - destruct (get v _) as [e|]; [| reflexivity].
    destruct (truthy e); [destruct (ToString _ e) |]; reflexivity.
Qed.

Lemma resume_preserves k ps r w rd0 :
  ps !! k = Some rd0 ->
  length ps = (if isLoading w then 1%nat else 0%nat) ->
  match r with
  | inl (_, w') => isLoading w' = isLoading w
  | inr w' => isLoading w' = false
  end ->
  in_flight_matches_flag (resume k ps r).
Proof.
  intros Hk Hlen Hr. unfold in_flight_matches_flag.
  assert (Hlt : (k < length ps)%nat) by (eapply lookup_lt_Some; eassumption).
  destruct r as [[rd w'] | w']; cbn [resume world pending].
  - rewrite length_insert, Hr. exact Hlen.
  - rewrite Hr, length_delete by eauto.
    destruct (isLoading w); lia.
Qed.

Lemma step_preserves s e s' :
  in_flight_matches_flag s ->
  step clock SyntaxError_message TypeError_message Number_toString s e
  = Some s' ->
  in_flight_matches_flag s'.
Proof.
  unfold in_flight_matches_flag, step. intros Hs.
  destruct e as [| text | b | | k r | k r | k r].
  - destruct (sendMessage clock (world s)) as [w' call] eqn:E.
    apply sendMessage_cases in E as [[-> ->] | (c & -> & Hf & Ht)].
    + intros [= <-]. exact Hs.
    + rewrite Hf in Hs.
      destruct c; intros [= <-]; cbn [world pending];
        rewrite length_app, Hs; cbn [stream_start sync_start fetch isLoading];
        now rewrite Ht.
  - intros [= <-]. exact Hs.
  - intros [= <-]. exact Hs.
  - intros [= <-]. exact Hs.
  - destruct (pending s !! k) as [[| rd |]|] eqn:Hk; try discriminate.
    intros [= <-]. apply (resume_preserves _ _ _ (world s) _ Hk Hs).
    destruct r as [m | [|] [|]]; cbn [stream_fetched negb Date_now];
      reflexivity.
  - destruct (pending s !! k) as [[| rd |]|] eqn:Hk; try discriminate.
    intros [= <-]. apply (resume_preserves _ _ _ (world s) _ Hk Hs).
    destruct r as [value | | m]; cbn [stream_read]; try reflexivity.
    unfold process_chunk.
    pose proof (process_lines_isLoading (assistantMessageId rd)
                  (assistantMessage rd, world s)
                  (split 10 (TextDecoder_decode value))) as H.
    now destruct (process_lines _ _ _ _) as [am w'].
  - destruct (pending s !! k) as [[| rd |]|] eqn:Hk; try discriminate.
    intros [= <-]. cbn [world pending].
    rewrite sync_fetched_isLoading, length_delete by eauto.
    assert (Hlt : (k < length (pending s))%nat)
      by (eapply lookup_lt_Some; eassumption).
    destruct (isLoading (world s)); lia.
Qed.

Lemma run_preserves es s s' :
  in_flight_matches_flag s ->
  run clock SyntaxError_message TypeError_message Number_toString s es
  = Some s' ->
  in_flight_matches_flag s'.
Proof.
  revert s. induction es as [|e es IH]; intros s Hs; cbn [run].
  - now intros [= <-].
  - destruct (step _ _ _ _ s e) as [s1|] eqn:E; [| discriminate].
    apply IH. now apply (step_preserves s e).
Qed.

End Guard.

(** The transition system and [sendMessageStream] agree: delivering the
    response and then the body, event by event, to a send that has sent its
    request leaves the world [sendMessageStream] computes. *)
Lemma run_read_events
    (clock : nat -> Z) (SyntaxError_message TypeError_message : jsstring -> jsstring)
    (Number_toString : number -> jsstring)
    (i : jsstring) (e : Ending) (values : list (list Byte.byte))
    (am : jsval) (w : World) :
  run clock SyntaxError_message TypeError_message Number_toString
    {| world := w;
       pending := [AwaitRead {| assistantMessageId := i;
                                assistantMessage := am |}] |}
    (read_events {| chunks := values; ending := e |})
  = Some {| world :=
              (let (am', w') := read_loop clock i (am, w) values in
               match e with
               | Done => stream_finally w'
               | Failed message =>
                   stream_catch clock SyntaxError_message TypeError_message
                     (Rejected message) w'
               end);
            pending := [] |}.
Proof.
  unfold read_events. cbn [chunks ending].
  revert am w. induction values as [|value values IH]; intros am w.
  - cbn [map app run step world pending read_loop].
    change ([AwaitRead {| assistantMessageId := i; assistantMessage := am |}]
            !! 0%nat)
      with (Some (AwaitRead {| assistantMessageId := i;
                               assistantMessage := am |})).
    cbv iota. now destruct e.
  - cbn [map app run step world pending read_loop].
    change ([AwaitRead {| assistantMessageId := i; assistantMessage := am |}]
            !! 0%nat)
      with (Some (AwaitRead {| assistantMessageId := i;
                               assistantMessage := am |})).
    cbv iota. cbn [stream_read assistantMessageId assistantMessage].
    destruct (process_chunk clock i (am, w) value) as [am1 w1].
    cbn [resume]. apply IH.
Qed.

Lemma run_stream
    (clock : nat -> Z) (SyntaxError_message TypeError_message : jsstring -> jsstring)
    (Number_toString : number -> jsstring)
    (messageContent : jsstring) (userMessage : Message)
    (s : ReadableStream) (w : World) :
  run clock SyntaxError_message TypeError_message Number_toString
    {| world := stream_start messageContent userMessage w;
       pending := [AwaitStreamFetch] |}
    (EvStreamFetch 0 (StreamResponse true true) :: read_events s)
  = Some {| world := sendMessageStream clock SyntaxError_message
                       TypeError_message messageContent userMessage
                       (StreamResponse true true) s w;
            pending := [] |}.
Proof.
  destruct s as [values e].
  cbn [run step world pending].
  change ([AwaitStreamFetch] !! 0%nat) with (Some AwaitStreamFetch).
  cbv iota. unfold sendMessageStream.
  cbn [stream_fetched negb Date_now resume assistantMessageId
       assistantMessage chunks ending].
  apply run_read_events.
Qed.

(** C9: while the busy flag is set a call of [sendMessage] returns at once
    and changes nothing: no user message is appended, no request is sent,
    no cell of the state is written.  Hence, from the mounted component on,
    whatever the user does and however the network answers, at most one send
    is in flight, and none when the busy flag is clear. *)
Theorem second_send_is_rejected
    (clock : nat -> Z) (SyntaxError_message TypeError_message : jsstring -> jsstring)
    (Number_toString : number -> jsstring) :
  (forall w, isLoading w = true -> sendMessage clock w = (w, None)) /\
  (forall s, isLoading (world s) = true ->
     step clock SyntaxError_message TypeError_message Number_toString s EvSend
     = Some s) /\
  (forall es s,
     run clock SyntaxError_message TypeError_message Number_toString
       {| world := initial; pending := [] |} es = Some s ->
     (length (pending s) <= 1)%nat /\
     (isLoading (world s) = true <-> pending s <> [])).
Proof.
  split; [| split].
  - apply sendMessage_busy.
  - intros [w ps] H. cbn [world] in H. unfold step. cbn [world pending].
    now rewrite (sendMessage_busy clock w H).
  - intros es s Hrun.
    assert (H : in_flight_matches_flag s).
    { eapply run_preserves; [| exact Hrun]. reflexivity. }
    unfold in_flight_matches_flag in H.
    destruct (isLoading (world s)), (pending s) as [|p ps];
      cbn [length] in *; try lia; split; try lia; split; congruence.
Qed.

Lemma second_send_is_rejected_witness :
  let w := setIsLoading true (setInput (js "again") initial) in
  isLoading w = true /\ sendMessage clock0 w = (w, None).
Proof.
  split; [reflexivity |].
  apply (proj1 (second_send_is_rejected clock0 SyntaxError_message0
                  TypeError_message0 Number_toString0)).
  reflexivity.
Defined.

(** ** The transport proxy *)

(** C7: when the backend answers with a non-success status (one outside
    200..299), both handlers return status 500 with the envelope
    [{ error, details }]: a JSON object of the two members [error], the
    handler's fixed text, and [details], which reports the backend status and
    error text when that text can be read.  When the backend answers with a
    success status, the synchronous handler returns the backend's JSON value
    as its own JSON body, and the streaming handler returns the backend's
    body stream itself under the headers [Content-Type: text/plain],
    [Cache-Control: no-cache] and [Connection: keep-alive]. *)
Theorem proxy_envelope_and_relay
    (Stream : Type) (env : option jsstring) (body : jsval)
    (backend : Http.Request -> Http.FetchResult Stream)
    (r : Http.BackendResponse Stream) :
  let sync := ChatRoute.POST Stream env (Http.JsonValue body) backend in
  let stream := StreamRoute.POST Stream env (Http.JsonValue body) backend in
  let failed := Http.backend_status r < 200 \/ 299 < Http.backend_status r in
  let succeeded := 200 <= Http.backend_status r <= 299 in
  let envelope (error details : jsstring) : Http.Body Stream :=
    Http.BodyJson (JObj [(js "error", JStr error);
                         (js "details", JStr details)]) in
  let reported (errorText : jsstring) : jsstring :=
    js "Backend responded with " ++ toString (Http.backend_status r)
    ++ js ": " ++ errorText in
  (backend (chat_request env body) = Http.FetchResponse r ->
   failed ->
   is_error_envelope (Http.response sync) /\
   (exists details,
      Http.body (Http.response sync)
      = envelope (js "Failed to process chat request") details) /\
   forall errorText, Http.text r = Http.TextValue errorText ->
     Http.body (Http.response sync)
     = envelope (js "Failed to process chat request") (reported errorText)) /\
  (backend (stream_request env body) = Http.FetchResponse r ->
   failed ->
   is_error_envelope (Http.response stream) /\
   (exists details,
      Http.body (Http.response stream)
      = envelope (js "Failed to start stream") details) /\
   forall errorText, Http.text r = Http.TextValue errorText ->
     Http.body (Http.response stream)
     = envelope (js "Failed to start stream") (reported errorText)) /\
  (backend (chat_request env body) = Http.FetchResponse r ->
   succeeded ->
   forall data, Http.json r = Http.JsonValue data ->
     Http.response sync
     = {| Http.status := 200;
          Http.headers := [(js "Content-Type", js "application/json")];
          Http.body := Http.BodyJson data |}) /\
  (backend (stream_request env body) = Http.FetchResponse r ->
   succeeded ->
   Http.response stream
   = {| Http.status := 200;
        Http.headers := [(js "Content-Type", js "text/plain");
                         (js "Cache-Control", js "no-cache");
                         (js "Connection", js "keep-alive")];
        Http.body := Http.BodyStream (Http.backend_body r) |}).
Proof.
  intros sync stream failed succeeded envelope reported.
  assert (Hfailed : failed -> Http.ok r = false).
  { unfold failed, Http.ok. intros H.
    apply andb_false_iff. rewrite !Z.leb_gt. lia. }
  assert (Hsucceeded : succeeded -> Http.ok r = true).
  { unfold succeeded, Http.ok. intros H.
    apply andb_true_iff. rewrite !Z.leb_le. lia. }
  subst sync stream envelope reported.
  unfold ChatRoute.POST, StreamRoute.POST, chat_request, stream_request.
  split; [| split; [| split]].
  - intros -> Hf. rewrite (Hfailed Hf). cbn [negb]. split; [| split].
    + destruct (Http.text r); split; try reflexivity; eexists _, _; reflexivity.
    + destruct (Http.text r); eexists; reflexivity.
    + intros errorText ->. reflexivity.
  - intros -> Hf. rewrite (Hfailed Hf). cbn [negb]. split; [| split].
    + destruct (Http.text r); split; try reflexivity; eexists _, _; reflexivity.
    + destruct (Http.text r); eexists; reflexivity.
    + intros errorText ->. reflexivity.
  - intros -> Hs data Hd. rewrite (Hsucceeded Hs), Hd. reflexivity.
  - intros -> Hs. rewrite (Hsucceeded Hs). reflexivity.
Qed.

Lemma proxy_envelope_and_relay_witness :
  let body := JObj [(js "message", JStr (js "hi"))] in
  let failed := ChatRoute.POST _ None (Http.JsonValue body)
                  (backend0 unavailable) in
  let relayed := StreamRoute.POST _ None (Http.JsonValue body)
                   (backend0 available) in
  ((Http.backend_status unavailable < 200
    \/ 299 < Http.backend_status unavailable) /\
   is_error_envelope (Http.response failed) /\
   Http.body (Http.response failed)
   = Http.BodyJson
       (JObj [(js "error", JStr (js "Failed to process chat request"));
              (js "details",
               JStr (js "Backend responded with 503: Service Unavailable"))]))
  /\
  (200 <= Http.backend_status available <= 299 /\
   Http.body (Http.response relayed)
   = Http.BodyStream (Some [chunk_Hel; chunk_Hello; chunk_end])).
Proof.
  assert (Hno : Http.backend_status unavailable < 200
                \/ 299 < Http.backend_status unavailable)
    by (right; reflexivity).
  assert (Hok : 200 <= Http.backend_status available <= 299)
    by (split; discriminate).
  destruct (proj1 (proxy_envelope_and_relay _ None
                     (JObj [(js "message", JStr (js "hi"))])
                     (backend0 unavailable) unavailable) eq_refl Hno)
    as (He & _ & Hd).
  pose proof (proj2 (proj2 (proj2 (proxy_envelope_and_relay _ None
                     (JObj [(js "message", JStr (js "hi"))])
                     (backend0 available) available))) eq_refl Hok) as Hs.
  split.
  - split; [exact Hno | split; [exact He |]].
    rewrite (Hd _ eq_refl). reflexivity.
  - split; [exact Hok |]. rewrite Hs. reflexivity.
Defined.

(** ** Chunks are decoded one by one *)

Lemma utf8_run_feed st bs :
  utf8_run st bs
  = snd (utf8_feed st bs)
    ++ (if bytes_needed (fst (utf8_feed st bs)) =? 0 then [] else [0xFFFD]).
Proof.
  revert st. induction bs as [|b bs IH]; intros st; cbn [utf8_run utf8_feed].
  - reflexivity.
  - destruct (utf8_handler st _) as [st' out]. rewrite IH.
    destruct (utf8_feed st' bs) as [st'' out']. cbn [fst snd].
    now rewrite app_assoc.
Qed.

Lemma utf8_run_app st a b :
  utf8_run st (a ++ b)
  = snd (utf8_feed st a) ++ utf8_run (fst (utf8_feed st a)) b.
Proof.
  revert st. induction a as [|x a IH]; intros st.
  - reflexivity.
  - cbn [app utf8_run utf8_feed].
    destruct (utf8_handler st _) as [st' out]. rewrite IH.
    destruct (utf8_feed st' a) as [st'' out']. cbn [fst snd].
    now rewrite app_assoc.
Qed.

Lemma utf8_run_idle st bs :
  bytes_needed st = 0 -> utf8_run st bs = utf8_run utf8_initial bs.
Proof.
  intros H. destruct bs as [|b bs]; cbn [utf8_run].
  - now rewrite H.
  - unfold utf8_handler. now rewrite H.
Qed.

Lemma strip_bom_app (a b : jsstring) :
  strip_bom b = b -> strip_bom (a ++ b) = strip_bom a ++ b.
Proof.
  intros H. destruct a as [|x a].
  - exact H.
  - cbn [app strip_bom]. now destruct (x =? 0xFEFF).
Qed.

Lemma decode_aligned c1 c2 :
  ends_mid_character c1 = false -> starts_with_mark c2 = false ->
  TextDecoder_decode c1 ++ TextDecoder_decode c2
  = TextDecoder_decode (c1 ++ c2).
Proof.
  unfold ends_mid_character, starts_with_mark, TextDecoder_decode.
  intros H1 H2. apply negb_false_iff, Z.eqb_eq in H1.
  rewrite utf8_run_app, (utf8_run_idle _ c2 H1).
  rewrite (utf8_run_feed _ c1), H1. cbn [Z.eqb]. rewrite app_nil_r.
  rewrite flat_map_app.
  assert (E : strip_bom (flat_map utf16_units (utf8_run utf8_initial c2))
              = flat_map utf16_units (utf8_run utf8_initial c2)).
  { destruct (flat_map utf16_units (utf8_run utf8_initial c2)) as [|c t];
      [reflexivity |]. cbn [strip_bom]. now rewrite H2. }
  now rewrite (strip_bom_app _ _ E), E.
Qed.

Lemma decode_mid_character value :
  ends_mid_character value = true ->
  exists s, TextDecoder_decode value = s ++ [0xFFFD].
Proof.
  unfold ends_mid_character, TextDecoder_decode. intros H.
  apply negb_true_iff in H. rewrite utf8_run_feed, H, flat_map_app.
  cbn [flat_map utf16_units app]. change (0xFFFD <? 0x10000) with true.
  cbn iota. cbn [app].
  set (u := flat_map utf16_units _).
  exists (strip_bom u). destruct u as [|x u]; [reflexivity |].
  cbn [app strip_bom]. now destruct (x =? 0xFEFF).
Qed.




(** *** A text that ends in U+FFFD is not JSON *)




Lemma lex_run_snoc s c st :
  lex_run st (s ++ [c])
  = match lex_run st s with Some st' => lex_step st' c | None => None end.
Proof.
  revert st. induction s as [|x s IH]; intros st; cbn [app lex_run].
  - now destruct (lex_step st c).
  - destruct (lex_step st x); [apply IH | reflexivity].
Qed.








(** * Further properties of the code *)

(** ** [trim] and the input guard *)

Lemma trimStart_blank (s : jsstring) : blank s = true -> trimStart s = [].
Proof.
  induction s as [|c s IH]; cbn [blank forallb trimStart]; [reflexivity |].
  intros H. apply andb_true_iff in H as [Hc Hs]. rewrite Hc. now apply IH.
Qed.

Lemma trimStart_not_blank (s : jsstring) :
  blank s = false ->
  exists c r, trimStart s = c :: r /\ is_trim_space c = false.
Proof.
  induction s as [|c s IH]; cbn [blank forallb trimStart]; [discriminate |].
  destruct (is_trim_space c) eqn:E; cbn [andb].
  - exact IH.
  - intros _. eauto.
Qed.

Lemma trimStart_head (s : jsstring) c r :
  trimStart s = c :: r -> is_trim_space c = false.
Proof.
  induction s as [|x s IH]; cbn [trimStart]; [discriminate |].
  destruct (is_trim_space x) eqn:E; [exact IH |].
  now intros [= <- _].
Qed.

Lemma trimStart_id (s : jsstring) c r :
  s = c :: r -> is_trim_space c = false -> trimStart s = s.
Proof. intros -> H. cbn [trimStart]. now rewrite H. Qed.

Lemma trimStart_snoc (s : jsstring) c :
  is_trim_space c = false -> exists u, trimStart (s ++ [c]) = u ++ [c].
Proof.
  intros Hc. induction s as [|x s [u IH]]; cbn [app trimStart].
  - rewrite Hc. now exists [].
  - destruct (is_trim_space x); [eauto |]. now exists (x :: s).
Qed.

Lemma last_rev_head (l : jsstring) : last (rev l) = head l.
Proof.
  destruct l as [|a l]; [reflexivity |]. cbn [rev]. apply last_snoc.
Qed.

Lemma trim_blank (s : jsstring) : blank s = true -> trim s = [].
Proof. intros H. unfold trim. now rewrite (trimStart_blank s H). Qed.

Lemma trim_not_blank (s : jsstring) :
  blank s = false ->
  exists c u, trim s = c :: u /\ is_trim_space c = false /\
              forall x, last (c :: u) = Some x -> is_trim_space x = false.
Proof.
  intros H. destruct (trimStart_not_blank s H) as (c & r & E & Hc).
  unfold trim. rewrite E. cbn [rev].
  destruct (trimStart_snoc (rev r) c Hc) as [u Eu]. rewrite Eu.
  rewrite rev_app_distr. cbn [rev app].
  exists c, (rev u). split; [reflexivity | split; [exact Hc |]].
  intros x Hx.
  assert (Hh : head (u ++ [c]) = Some x).
  { rewrite <- Hx, <- last_rev_head, rev_app_distr. reflexivity. }
  rewrite <- Eu in Hh.
  destruct (trimStart (rev r ++ [c])) as [|y t] eqn:Ey; [discriminate |].
  cbn in Hh. injection Hh as ->.
  eapply trimStart_head; exact Ey.
Qed.

Lemma head_rev_last (l : jsstring) : head (rev l) = last l.
Proof. rewrite <- (rev_involutive l) at 2. symmetry. apply last_rev_head. Qed.

Lemma trim_idempotent (s : jsstring) : trim (trim s) = trim s.
Proof.
  destruct (blank s) eqn:B.
  - now rewrite (trim_blank s B).
  - destruct (trim_not_blank s B) as (c & u & E & Hc & Hl). rewrite E.
    unfold trim. rewrite (trimStart_id (c :: u) c u eq_refl Hc).
    assert (Hr : trimStart (rev (c :: u)) = rev (c :: u)).
    { pose proof (head_rev_last (c :: u)) as Hh.
      destruct (rev (c :: u)) as [|y t] eqn:Er.
      - reflexivity.
      - cbn [head] in Hh. symmetry in Hh. apply Hl in Hh.
        cbn [trimStart]. now rewrite Hh. }
    rewrite Hr. apply rev_involutive.
Qed.

Lemma nonempty_trim (s : jsstring) :
  match trim s with [] => false | _ :: _ => true end = negb (blank s).
Proof.
  destruct (blank s) eqn:B.
  - now rewrite (trim_blank s B).
  - now destruct (trim_not_blank s B) as (c & u & -> & _).
Qed.

(** X1: when no send is in flight and the input holds something other than
    white space, [sendMessage] appends exactly one user message, whose content
    is the trimmed input (not empty, no white space at either end), clears
    the input, sets the busy flag, and awaits the call the Streaming toggle
    selects, handing it the input as typed.  No request has been sent and
    nothing logged by then. *)
Theorem accepted_send (clock : nat -> Z) (w : World) :
  isLoading w = false -> blank (input w) = false ->
  exists userMessage w',
    sendMessage clock w
    = (w', Some (if useStreaming w then CallStream (input w) userMessage
                 else CallSync (input w))) /\
    messages w' = messages w ++ [userMessage] /\
    sender userMessage = user /\
    id userMessage = toString (clock (ticks w)) /\
    content userMessage = JStr (trim (input w)) /\
    (exists c u, trim (input w) = c :: u /\ is_trim_space c = false /\
                 forall x, last (c :: u) = Some x -> is_trim_space x = false) /\
    input w' = [] /\ isLoading w' = true /\
    fetched w' = fetched w /\ console w' = console w.
Proof.
  intros Hl Hb. unfold sendMessage. rewrite nonempty_trim, Hb, Hl.
  cbn [negb orb Date_now].
  match goal with
  | |- context [if _ then (?w4, Some (CallStream _ ?m)) else _] =>
      exists m, w4
  end.
  split.
  - destruct (useStreaming w); reflexivity.
  - repeat split. exact (trim_not_blank _ Hb).
Qed.

Lemma accepted_send_witness :
  let w := setInput (js "  hi ") initial in
  isLoading w = false /\ blank (input w) = false /\
  exists userMessage w',
    sendMessage clock0 w = (w', Some (CallStream (js "  hi ") userMessage)) /\
    content userMessage = JStr (js "hi").
Proof.
  split; [reflexivity | split; [reflexivity |]].
  destruct (accepted_send clock0 (setInput (js "  hi ") initial)
              eq_refl eq_refl)
    as (um & w' & E & _ & _ & _ & Hc & _).
  exists um, w'. split; [exact E | exact Hc].
Defined.

(** X2: an input made of white space only (the empty input included) is
    rejected whatever the busy flag: [sendMessage] returns at once and
    leaves the whole state as it was. *)
Theorem blank_input_is_rejected (clock : nat -> Z) (w : World) :
  blank (input w) = true -> sendMessage clock w = (w, None).
Proof.
  intros Hb. unfold sendMessage. now rewrite nonempty_trim, Hb.
Qed.

Lemma blank_input_is_rejected_witness :
  let w := setInput [0x20; 0x09; 0xA0; 0x3000] initial in
  blank (input w) = true /\ sendMessage clock0 w = (w, None).
Proof.
  split; [reflexivity | apply blank_input_is_rejected; reflexivity].
Defined.

(** X3: the guard of [sendMessage] and the guards of the view agree: a key
    press sends exactly when the key is Enter, Shift is not held and the Send
    button is enabled; and [sendMessage] accepts exactly when the button is
    enabled. *)
Theorem send_guards_agree (clock : nat -> Z) (w : World) :
  ((exists call, snd (sendMessage clock w) = Some call)
   <-> send_disabled w = false) /\
  (forall e,
     (exists call, snd (fst (handleKeyPress clock e w)) = Some call)
     <-> key e = js "Enter" /\ shiftKey e = false /\ send_disabled w = false).
Proof.
  assert (Hs : (exists call, snd (sendMessage clock w) = Some call)
               <-> send_disabled w = false).
  { unfold send_disabled, sendMessage. rewrite (orb_comm (isLoading w)).
    destruct (negb _ || isLoading w); cbn [snd].
    - split; [intros [c H]; discriminate | discriminate].
    - split; [reflexivity | intros _].
      cbn [Date_now]. destruct (useStreaming w); eexists; reflexivity. }
  split; [exact Hs |].
  intros e. unfold handleKeyPress.
  destruct (bool_decide_reflect (key e = js "Enter")) as [Hk | Hk];
    destruct (shiftKey e); cbn [andb negb fst snd];
    rewrite ?Hs; split;
    try (intros [c H]; discriminate);
    try (intros (H1 & H2 & H3); congruence);
    try tauto.
Qed.

(** ** What the read loop keeps *)

Section ReadLoop.

Variable clock : nat -> Z.
Variable i : jsstring.

(** A relation that holds across each line holds across the read loop. *)
Lemma read_loop_relation (R : jsval * World -> jsval * World -> Prop) :
  (forall st, R st st) ->
  (forall a b c, R a b -> R b c -> R a c) ->
  (forall st line, R st (fst (process_line clock i st line))) ->
  forall values st, R st (read_loop clock i st values).
Proof.
  intros Hrefl Htrans Hline.
  assert (Hlines : forall lines st, R st (process_lines clock i st lines)).
  { induction lines as [|l ls IH]; intros st; cbn [process_lines].
    - apply Hrefl.
    - pose proof (Hline st l) as H.
      destruct (process_line clock i st l) as [st' [|]]; cbn [fst] in H.
      + eapply Htrans; [exact H | apply IH].
      + exact H. }
  induction values as [|v vs IH]; intros st; cbn [read_loop].
  - apply Hrefl.
  - eapply Htrans; [apply Hlines | apply IH].
Qed.

(** The cases of one line: nothing happens, an error is logged, or a truthy
    content is published. *)
Lemma process_line_cases am w line :
  let st' := fst (process_line clock i (am, w) line) in
  st' = (am, w) \/
  (exists e, st' = (am, console_error (js "Error parsing stream data:") e w)) \/
  (exists data c,
     is_frame line data /\ get data (js "content") = Some c /\
     truthy c = true /\
     st' = (c, setMessages (upsert (published clock i data c w))
                 (snd (Date_now clock w)))).
Proof.
  unfold process_line.
  destruct (startsWith line _) eqn:Hp; [| now left].
  destruct (JSON_parse _) as [data|] eqn:Hj; [| right; left; eauto].
  destruct (get data _) as [c|] eqn:Hc; [| right; left; eauto].
  destruct (truthy c) eqn:Ht.
  - right. right. exists data, c. repeat split; assumption.
  - left. now destruct (type_is_end data).
Qed.

Lemma filter_insert_others (m : Message) (ms : list Message) k m0 :
  ms !! k = Some m0 -> id m0 = i -> id m = i ->
  others i (<[k := m]> ms) = others i ms.
Proof.
  unfold others. revert k. induction ms as [|x ms IH]; intros k Hk H0 Hm.
  - discriminate.
  - destruct k as [|k]; cbn in Hk.
    + injection Hk as ->.
      change (<[0%nat := m]> (m0 :: ms)) with (m :: ms).
      rewrite !filter_cons_False by (intros H; now apply H). reflexivity.
    + change (<[S k := m]> (x :: ms)) with (x :: <[k := m]> ms).
      rewrite !filter_cons. rewrite (IH k Hk H0 Hm). reflexivity.
Qed.

Lemma upsert_others (m : Message) (ms : list Message) :
  id m = i -> others i (upsert m ms) = others i ms.
Proof.
  intros Hm. unfold upsert. rewrite Hm.
  destruct (findIndex i ms) as [k|] eqn:E.
  - apply findIndex_Some in E as [m0 E].
    apply list_find_Some in E as (Hk & H0 & _).
    now apply (filter_insert_others m ms k m0).
  - unfold others. rewrite filter_app.
    rewrite (filter_cons_False _ m []) by (intros H; now apply H).
    rewrite filter_nil. apply app_nil_r.
Qed.

(** Whether a message carries the identifier already: 1 or 0. *)
Lemma upsert_slot (m : Message) (ms : list Message) :
  id m = i ->
  is_Some (findIndex i (upsert m ms)) /\
  length (upsert m ms)
  = match findIndex i ms with
    | Some _ => length ms
    | None => S (length ms)
    end.
Proof.
  intros Hm. split.
  - pose proof (displayed_upsert i m ms Hm) as H. unfold displayed in H.
    unfold findIndex. destruct (list_find _ (upsert m ms)); [eauto |].
    discriminate.
  - unfold upsert. rewrite Hm. destruct (findIndex i ms).
    + apply length_insert.
    + rewrite length_app. cbn. lia.
Qed.

End ReadLoop.

(** X4: the read loop touches one message only.  Whatever the chunks hold,
    the messages that do not carry the identifier of the turn stay as they
    were and in their order, and the input, the busy flag, the Streaming
    toggle and the requests sent are unchanged; the clock is only read
    forward. *)
Theorem read_loop_keeps_other_messages
    (clock : nat -> Z) (i : jsstring) (st : jsval * World)
    (values : list (list Byte.byte)) :
  let w := snd st in
  let w' := snd (read_loop clock i st values) in
  others i (messages w') = others i (messages w) /\
  input w' = input w /\ isLoading w' = isLoading w /\
  useStreaming w' = useStreaming w /\ fetched w' = fetched w /\
  (ticks w <= ticks w')%nat.
Proof.
  cbv zeta.
  apply (read_loop_relation clock i
           (fun a b =>
              others i (messages (snd b)) = others i (messages (snd a)) /\
              input (snd b) = input (snd a) /\
              isLoading (snd b) = isLoading (snd a) /\
              useStreaming (snd b) = useStreaming (snd a) /\
              fetched (snd b) = fetched (snd a) /\
              (ticks (snd a) <= ticks (snd b))%nat)).
  - intros a. repeat split; lia.
  - intros a b c (H1 & H2 & H3 & H4 & H5 & H6) (K1 & K2 & K3 & K4 & K5 & K6).
    repeat split; try congruence; lia.
  - intros [am w] line.
    destruct (process_line_cases clock i am w line)
      as [-> | [[e ->] | (data & c & _ & _ & _ & ->)]];
      cbn [snd console_error setMessages Date_now messages input isLoading
           useStreaming fetched ticks];
      repeat split; try lia.
    now apply upsert_others.
Qed.

(** Over uninterrupted iterations of the read loop the turn takes at most
    one slot. *)
Lemma read_loop_slots
    (clock : nat -> Z) (i : jsstring) (st : jsval * World)
    (values : list (list Byte.byte)) :
  let ms := messages (snd st) in
  let ms' := messages (snd (read_loop clock i st values)) in
  (length ms <= length ms' <= S (length ms))%nat /\
  (is_Some (findIndex i ms) ->
   length ms' = length ms /\ is_Some (findIndex i ms')).
Proof.
  cbv zeta.
  set (slot := fun ms : list Message =>
                 match findIndex i ms with
                 | Some _ => 1%nat
                 | None => 0%nat
                 end).
  assert (H : (length (messages (snd (read_loop clock i st values)))
               + slot (messages (snd st))
               = length (messages (snd st))
                 + slot (messages (snd (read_loop clock i st values))))%nat /\
              (slot (messages (snd st))
               <= slot (messages (snd (read_loop clock i st values))))%nat).
  { apply (read_loop_relation clock i
             (fun a b =>
                (length (messages (snd b)) + slot (messages (snd a))
                 = length (messages (snd a)) + slot (messages (snd b)))%nat /\
                (slot (messages (snd a)) <= slot (messages (snd b)))%nat)).
    - intros a. split; lia.
    - intros a b c [H1 H2] [K1 K2]. split; lia.
    - intros [am w] line.
      destruct (process_line_cases clock i am w line)
        as [-> | [[e ->] | (data & c & _ & _ & _ & ->)]];
        cbn [snd console_error setMessages Date_now messages];
        try (split; lia).
      destruct (upsert_slot i (published clock i data c w) (messages w)
                  eq_refl) as [Hs Hl].
      rewrite Hl. unfold slot.
      destruct Hs as [k ->]. destruct (findIndex i (messages w)); split; lia. }
  destruct H as [H1 H2]. unfold slot in H1, H2. split.
  - destruct (findIndex i (messages (snd st))),
             (findIndex i (messages (snd (read_loop clock i st values))));
      lia.
  - intros [k Hk]. rewrite Hk in H1, H2.
    destruct (findIndex i (messages (snd (read_loop clock i st values))));
      [split; [lia | eauto] | lia].
Qed.

(** Over uninterrupted iterations of the read loop the variable
    [assistantMessage] follows what is published. *)
Lemma read_loop_variable
    (clock : nat -> Z) (i : jsstring) (st : jsval * World)
    (values : list (list Byte.byte)) :
  let st' := read_loop clock i st values in
  (fst st' = fst st /\ messages (snd st') = messages (snd st)) \/
  (displayed i (messages (snd st')) = Some (fst st') /\
   truthy (fst st') = true).
Proof.
  cbv zeta.
  apply (read_loop_relation clock i
           (fun a b =>
              (fst b = fst a /\ messages (snd b) = messages (snd a)) \/
              (displayed i (messages (snd b)) = Some (fst b) /\
               truthy (fst b) = true))).
  - intros a. now left.
  - intros a b c Hab [[K1 K2] | K]; [| now right].
    rewrite K1, K2. exact Hab.
  - intros [am w] line.
    destruct (process_line_cases clock i am w line)
      as [-> | [[e ->] | (data & c & _ & _ & Ht & ->)]];
      cbn [fst snd console_error setMessages messages];
      [now left | now left |].
    right. split; [| exact Ht].
    now apply displayed_upsert.
Qed.

(** X5: one chunk takes at most one slot.  The lines of a chunk are
    processed without interruption, between two reads; across that step the
    number of messages never shrinks and grows by one at most, and when a
    message carries the turn's identifier already it does not grow at all
    and a message that carries the identifier remains.  (Between reads other
    events may occur: Clear Chat empties the list.) *)
Theorem chunk_adds_at_most_one
    (clock : nat -> Z) (SyntaxError_message TypeError_message : jsstring -> jsstring)
    (Number_toString : number -> jsstring)
    (s s' : System) (k : nat) (rd : Reading) (value : list Byte.byte) :
  pending s !! k = Some (AwaitRead rd) ->
  step clock SyntaxError_message TypeError_message Number_toString s
    (EvRead k (ReadValue value)) = Some s' ->
  let i := assistantMessageId rd in
  let ms := messages (world s) in
  let ms' := messages (world s') in
  (length ms <= length ms' <= S (length ms))%nat /\
  (is_Some (findIndex i ms) ->
   length ms' = length ms /\ is_Some (findIndex i ms')).
Proof.
  intros Hk. unfold step. rewrite Hk. intros [= <-]. cbv zeta.
  cbn [stream_read].
  pose proof (read_loop_slots clock (assistantMessageId rd)
                (assistantMessage rd, world s) [value]) as H.
  cbv zeta in H. cbn [read_loop snd] in H.
  destruct (process_chunk clock _ _ value) as [am w'].
  cbn [resume world snd] in *. exact H.
Qed.

Lemma chunk_adds_at_most_one_witness :
  let step0 := step clock0 SyntaxError_message0 TypeError_message0
                 Number_toString0 in
  let rd := {| assistantMessageId := js "1001";
               assistantMessage := JStr [] |} in
  let s := {| world := setIsLoading true initial;
              pending := [AwaitRead rd] |} in
  pending s !! 0%nat = Some (AwaitRead rd) /\
  exists s',
    step0 s (EvRead 0 (ReadValue (chunk_Hel ++ chunk_Hello))) = Some s' /\
    length (messages (world s')) = 1%nat.
Proof.
  split; [reflexivity |].
  eexists. split; [vm_compute; reflexivity |].
  match goal with
  | |- length (messages (world ?s')) = _ =>
      pose proof (proj1 (chunk_adds_at_most_one clock0 SyntaxError_message0
                           TypeError_message0 Number_toString0
                           {| world := setIsLoading true initial;
                              pending :=
                                [AwaitRead
                                   {| assistantMessageId := js "1001";
                                      assistantMessage := JStr [] |}] |}
                           s' 0%nat _ (chunk_Hel ++ chunk_Hello)
                           eq_refl ltac:(vm_compute; reflexivity))) as H
  end.
  reflexivity.
Defined.

(** X6: after each chunk the variable [assistantMessage] and the
    conversation agree.  Across the step that processes one chunk, the send
    keeps reading under the same identifier, and either the chunk published
    nothing (the variable and the messages are as before the chunk) or the
    content stored for the turn is the value of the variable, a truthy
    value (for a string: not empty). *)
Theorem chunk_mirrors_variable
    (clock : nat -> Z) (SyntaxError_message TypeError_message : jsstring -> jsstring)
    (Number_toString : number -> jsstring)
    (s s' : System) (k : nat) (rd : Reading) (value : list Byte.byte) :
  pending s !! k = Some (AwaitRead rd) ->
  step clock SyntaxError_message TypeError_message Number_toString s
    (EvRead k (ReadValue value)) = Some s' ->
  exists rd',
    pending s' !! k = Some (AwaitRead rd') /\
    assistantMessageId rd' = assistantMessageId rd /\
    ((assistantMessage rd' = assistantMessage rd /\
      messages (world s') = messages (world s)) \/
     (displayed (assistantMessageId rd) (messages (world s'))
      = Some (assistantMessage rd') /\
      truthy (assistantMessage rd') = true)).
Proof.
  intros Hk. unfold step. rewrite Hk. intros [= <-].
  cbn [stream_read].
  pose proof (read_loop_variable clock (assistantMessageId rd)
                (assistantMessage rd, world s) [value]) as H.
  cbv zeta in H. cbn [read_loop fst snd] in H.
  destruct (process_chunk clock _ _ value) as [am w'].
  cbn [resume world pending fst snd] in *.
  exists {| assistantMessageId := assistantMessageId rd;
            assistantMessage := am |}.
  split; [| split; [reflexivity | exact H]].
  apply list_lookup_insert_eq. eapply lookup_lt_Some; exact Hk.
Qed.

Lemma chunk_mirrors_variable_witness :
  let step0 := step clock0 SyntaxError_message0 TypeError_message0
                 Number_toString0 in
  let rd := {| assistantMessageId := js "1001";
               assistantMessage := JStr [] |} in
  let s := {| world := setIsLoading true initial;
              pending := [AwaitRead rd] |} in
  pending s !! 0%nat = Some (AwaitRead rd) /\
  exists s' rd',
    step0 s (EvRead 0 (ReadValue chunk_Hel)) = Some s' /\
    pending s' !! 0%nat = Some (AwaitRead rd') /\
    assistantMessage rd' = JStr (js "Hel").
Proof.
  split; [reflexivity |].
  assert (E : step clock0 SyntaxError_message0 TypeError_message0
                Number_toString0
                {| world := setIsLoading true initial;
                   pending := [AwaitRead
                                 {| assistantMessageId := js "1001";
                                    assistantMessage := JStr [] |}] |}
                (EvRead 0 (ReadValue chunk_Hel))
              = Some {| world :=
                          snd (process_chunk clock0 (js "1001")
                                 (JStr [], setIsLoading true initial)
                                 chunk_Hel);
                        pending :=
                          [AwaitRead
                             {| assistantMessageId := js "1001";
                                assistantMessage := JStr (js "Hel") |}] |})
    by (vm_compute; reflexivity).
  destruct (chunk_mirrors_variable clock0 SyntaxError_message0
              TypeError_message0 Number_toString0
              {| world := setIsLoading true initial;
                 pending := [AwaitRead
                               {| assistantMessageId := js "1001";
                                  assistantMessage := JStr [] |}] |}
              _ 0%nat _ chunk_Hel eq_refl E) as (rd' & Hp & _ & _).
  eexists _, rd'. split; [exact E |]. split; [exact Hp |].
  cbn in Hp. now injection Hp as <-.
Defined.

(** ** Frames that are not content frames *)

(** X7: a frame that parses to something other than an object publishes
    nothing and does not end the line loop.  A string, a number, a boolean
    or an array leaves the whole state as it was; [null], on which reading
    [content] throws, is logged like a syntax error. *)
Theorem non_object_frame_publishes_nothing
    (clock : nat -> Z) (i : jsstring) (am : jsval) (w : World)
    (line : jsstring) (data : jsval) :
  is_frame line data ->
  (forall members, data <> JObj members) ->
  exists w',
    process_line clock i (am, w) line = ((am, w'), Continue) /\
    messages w' = messages w /\
    w' = match data with
         | JUndefined | JNull =>
             console_error (js "Error parsing stream data:")
               (TypeError (js "content")) w
         | _ => w
         end.
Proof.
  intros [Hp Hj] Hno. unfold process_line. rewrite Hp, Hj.
  destruct data as [| | b | n | s | es | ms];
    try (eexists; repeat split; reflexivity).
  now destruct (Hno ms).
Qed.

Lemma non_object_frame_publishes_nothing_witness :
  let line := js "data: null" in
  is_frame line JNull /\
  (forall members, JNull <> JObj members) /\
  exists w',
    process_line clock0 (js "1001") (JStr [], initial) line
    = ((JStr [], w'), Continue) /\
    messages w' = [] /\ length (console w') = 1%nat.
Proof.
  assert (Hf : is_frame (js "data: null") JNull)
    by (split; vm_compute; reflexivity).
  assert (Hn : forall members, JNull <> JObj members) by discriminate.
  split; [exact Hf | split; [exact Hn |]].
  destruct (non_object_frame_publishes_nothing clock0 (js "1001") (JStr [])
              initial _ _ Hf Hn) as (w' & E & Hm & ->).
  eexists. split; [exact E |]. split; reflexivity.
Defined.

(** ** The model badge *)

Lemma truthy_model_or_default (data : jsval) :
  truthy (model_or_default data) = true.
Proof.
  unfold model_or_default. destruct (get data _) as [m|]; [| reflexivity].
  destruct (truthy m) eqn:E; [exact E | reflexivity].
Qed.

Lemma list_find_upsert (i : jsstring) (m : Message) (ms : list Message) :
  id m = i ->
  exists k, list_find (fun x => id x = i) (upsert m ms) = Some (k, m).
Proof.
  intros Hid. unfold upsert. rewrite Hid.
  destruct (findIndex i ms) as [k|] eqn:E.
  - apply findIndex_Some in E as [m0 E].
    apply list_find_Some in E as (Hk & _ & Hleast).
    exists k. apply list_find_insert_Some. right. left.
    repeat split; try assumption. eapply lookup_lt_Some; eassumption.
  - apply findIndex_None in E. exists (length ms).
    rewrite (list_find_app_r _ _ _ E). simpl.
    destruct (decide (id m = i)) as [_|n]; [reflexivity | contradiction].
Qed.

(** X8: which messages show the model badge.  The badge condition
    [message.model && message.sender === "assistant"] holds for every message
    a content frame publishes, whose model is the frame's [model] when that
    is truthy and the label [gemini-pro] otherwise; for the reply of a
    successful synchronous send it holds exactly when the reply's [model]
    property is truthy; and it never holds for the user message of a send
    nor for the error messages of the two [catch] blocks, which carry no
    model. *)
Theorem model_badge_by_origin
    (clock : nat -> Z) (SyntaxError_message TypeError_message : jsstring -> jsstring)
    (Number_toString : number -> jsstring) :
  (forall i am w line data c frame_model,
     is_frame line data ->
     get data (js "content") = Some c -> truthy c = true ->
     get data (js "model") = Some frame_model ->
     exists w' k m,
       fst (process_line clock i (am, w) line) = (c, w') /\
       list_find (fun x => id x = i) (messages w') = Some (k, m) /\
       content m = c /\ sender m = assistant /\
       model m = Some (if truthy frame_model then frame_model
                       else JStr (js "gemini-pro")) /\
       shows_model_badge m = true) /\
  (forall messageContent data w reply_model,
     get data (js "model") = Some reply_model ->
     exists m,
       messages (sendMessageSync clock SyntaxError_message TypeError_message
                   Number_toString messageContent
                   (SyncResponse true (JsonValue data)) w)
       = messages w ++ [m] /\
       sender m = assistant /\ model m = Some reply_model /\
       shows_model_badge m = truthy reply_model) /\
  (forall w w' call,
     sendMessage clock w = (w', Some call) ->
     exists userMessage,
       messages w' = messages w ++ [userMessage] /\
       sender userMessage = user /\ model userMessage = None /\
       shows_model_badge userMessage = false) /\
  (forall error w,
     exists m m',
       messages (stream_catch clock SyntaxError_message TypeError_message
                   error w) = messages w ++ [m] /\
       messages (sync_catch clock SyntaxError_message TypeError_message
                   error w) = messages w ++ [m'] /\
       model m = None /\ model m' = None /\
       shows_model_badge m = false /\ shows_model_badge m' = false).
Proof.
  split; [| split; [| split]].
  - intros i am w line data c frame_model Hf Hc Ht Hm.
    rewrite (process_line_content clock i am w line data c Hf Hc Ht).
    cbn [fst].
    destruct (list_find_upsert i (published clock i data c w) (messages w)
                eq_refl) as [k Hk].
    eexists _, k, _. split; [reflexivity |].
    cbn [setMessages messages]. split; [exact Hk |].
    split; [reflexivity | split; [reflexivity |]].
    unfold shows_model_badge, published. cbn [model sender].
    rewrite truthy_model_or_default. unfold model_or_default. rewrite Hm.
    split; reflexivity.
  - intros messageContent data w reply_model Hm.
    unfold sendMessageSync, sync_start. cbn [sync_fetched Date_now].
    destruct data; try discriminate Hm;
      cbn [get] in Hm |- *; injection Hm as <-;
      eexists; (split; [reflexivity |]);
      (split; [reflexivity |]); (split; [reflexivity |]);
      unfold shows_model_badge; cbn [model sender];
      now rewrite andb_true_r.
  - intros w w' call. unfold sendMessage.
    destruct (negb _ || isLoading w); [discriminate |].
    cbn [Date_now]. destruct (useStreaming w); intros [= <- _];
      eexists; repeat split.
  - intros error w. eexists _, _. repeat split.
Qed.

Lemma model_badge_by_origin_witness :
  let line := js (quoted "data: {'content':'Hi','model':'deepseek-v3'}") in
  let data := JObj [(js "content", JStr (js "Hi"));
                    (js "model", JStr (js "deepseek-v3"))] in
  is_frame line data /\
  exists w' k m,
    fst (process_line clock0 (js "1001") (JStr [], initial) line)
    = (JStr (js "Hi"), w') /\
    list_find (fun x => id x = js "1001") (messages w') = Some (k, m) /\
    model m = Some (JStr (js "deepseek-v3")) /\
    shows_model_badge m = true.
Proof.
  assert (Hf : is_frame
                 (js (quoted "data: {'content':'Hi','model':'deepseek-v3'}"))
                 (JObj [(js "content", JStr (js "Hi"));
                        (js "model", JStr (js "deepseek-v3"))])).
  { split; vm_compute; reflexivity. }
  split; [exact Hf |].
  destruct (proj1 (model_badge_by_origin clock0 SyntaxError_message0
                     TypeError_message0 Number_toString0)
              (js "1001") (JStr []) initial _ _ (JStr (js "Hi"))
              (JStr (js "deepseek-v3")) Hf eq_refl eq_refl eq_refl)
    as (w' & k & m & E & Hk & _ & _ & Hm & Hb).
  exists w', k, m. repeat split; assumption.
Defined.

(** ** [sendMessageSync] and the failure to open a stream *)

Section Sync.

Variable clock : nat -> Z.
Variables SyntaxError_message TypeError_message : jsstring -> jsstring.
Variable Number_toString : number -> jsstring.

Lemma sync_catch_effect error w :
  let w' := sync_catch clock SyntaxError_message TypeError_message error w in
  messages w'
  = messages w
    ++ [{| id := toString (clock (ticks w) + 1);
           content := JStr (js "Sorry, I encountered an error: "
                            ++ message_of SyntaxError_message
                                 TypeError_message error
                            ++ js ". Please try again.");
           sender := assistant;
           timestamp := clock (S (ticks w));
           model := None |}] /\
  isLoading w' = false /\ input w' = input w /\
  useStreaming w' = useStreaming w /\ fetched w' = fetched w.
Proof. repeat split. Qed.

End Sync.

(** X9: every outcome of [sendMessageSync] ends the same way.  Whether the
    fetch is rejected, the reply is not JSON, the status is not a success or
    all goes well, exactly one request has been sent to [/api/chat], exactly
    one assistant-authored message has been appended behind the messages
    there were, the busy flag is cleared, and the input and the toggle are
    untouched. *)
Theorem sync_send_appends_one_message
    (clock : nat -> Z) (SyntaxError_message TypeError_message : jsstring -> jsstring)
    (Number_toString : number -> jsstring)
    (messageContent : jsstring) (r : SyncFetch) (w : World) :
  let w' := sendMessageSync clock SyntaxError_message TypeError_message
              Number_toString messageContent r w in
  exists m,
    messages w' = messages w ++ [m] /\ sender m = assistant /\
    isLoading w' = false /\
    fetched w' = fetched w ++ [post (js "/api/chat") messageContent] /\
    input w' = input w /\ useStreaming w' = useStreaming w.
Proof.
  cbv zeta. unfold sendMessageSync, sync_start.
  destruct r as [m | [|] [v | m]]; cbn [sync_fetched Date_now];
    try (eexists; repeat split; reflexivity).
  - destruct (get v (js "response")); eexists; repeat split; reflexivity.
  - destruct (get v (js "error")) as [e|];
      [destruct (truthy e); [destruct (ToString _ e) |] |];
      eexists; repeat split; reflexivity.
Qed.

(** X10: a successful reply is shown as it is read.  When the status is a
    success and the reply is JSON other than [null], the message appended
    has for content the reply's [response] property and for model its
    [model] property, each [undefined] when the reply has no such property or
    is not an object; nothing is logged.  A missing [response] is not treated
    as an error. *)
Theorem sync_success_reads_response
    (clock : nat -> Z) (SyntaxError_message TypeError_message : jsstring -> jsstring)
    (Number_toString : number -> jsstring)
    (messageContent : jsstring) (data : jsval) (w : World) :
  data <> JNull -> data <> JUndefined ->
  let w' := sendMessageSync clock SyntaxError_message TypeError_message
              Number_toString messageContent
              (SyncResponse true (JsonValue data)) w in
  let property (key : jsstring) :=
    match data with
    | JObj members =>
        match lookup_last key members with Some v => v | None => JUndefined end
    | _ => JUndefined
    end in
  messages w'
  = messages w ++ [{| id := toString (clock (ticks w) + 1);
                      content := property (js "response");
                      sender := assistant;
                      timestamp := clock (S (ticks w));
                      model := Some (property (js "model")) |}] /\
  console w' = console w.
Proof.
  intros Hn Hu. cbv zeta. unfold sendMessageSync, sync_start.
  cbn [sync_fetched Date_now].
  destruct data; try contradiction; split; reflexivity.
Qed.

Lemma sync_success_reads_response_witness :
  let data := JObj [(js "model", JStr (js "deepseek-v3"))] in
  let w' := sendMessageSync clock0 SyntaxError_message0 TypeError_message0
              Number_toString0 (js "hi")
              (SyncResponse true (JsonValue data)) initial in
  data <> JNull /\ data <> JUndefined /\
  content <$> messages w' = [JUndefined] /\ console w' = [].
Proof.
  assert (Hn : JObj [(js "model", JStr (js "deepseek-v3"))] <> JNull)
    by discriminate.
  assert (Hu : JObj [(js "model", JStr (js "deepseek-v3"))] <> JUndefined)
    by discriminate.
  destruct (sync_success_reads_response clock0 SyntaxError_message0
              TypeError_message0 Number_toString0 (js "hi") _ initial Hn Hu)
    as [Hm Hc].
  split; [exact Hn | split; [exact Hu |]].
  split; [rewrite Hm; reflexivity | exact Hc].
Defined.

Example ToString_cases :
  ToString Number_toString0 (JArr [JStr (js "a"); JNull; JBool true])
  = Some (js "a,,true") /\
  ToString Number_toString0 (JObj [(js "code", JStr (js "E1"))])
  = Some (js "[object Object]") /\
  ToString Number_toString0 (JObj [(js "toString", JStr (js "x"))]) = None /\
  ToString Number_toString0
    (JArr [JStr (js "a"); JObj [(js "toString", JNull)]]) = None.
Proof. repeat split; vm_compute; reflexivity. Qed.



(** X12: a stream that cannot be opened.  When the fetch is rejected or the
    status is not a success, no clock reading is made for the turn, nothing
    of the body is read (the outcome is the same for every body), and exactly
    one error message is appended; for a non-success status its text is
    [Streaming error: Failed to start stream. Please try again.].  Behind the
    streaming proxy handler every failure of the handler ends this way. *)
Theorem stream_open_failure
    (clock : nat -> Z) (SyntaxError_message TypeError_message : jsstring -> jsstring)
    (messageContent : jsstring) (userMessage : Message) (w : World) :
  let send := sendMessageStream clock SyntaxError_message TypeError_message
                messageContent userMessage in
  let shown (text : jsstring) : list Message :=
    messages w ++ [{| id := toString (clock (ticks w) + 1);
                      content := JStr (js "Streaming error: " ++ text
                                       ++ js ". Please try again.");
                      sender := assistant;
                      timestamp := clock (S (ticks w));
                      model := None |}] in
  (forall message s,
     messages (send (StreamRejected message) s w) = shown message /\
     isLoading (send (StreamRejected message) s w) = false) /\
  (forall has_body s,
     messages (send (StreamResponse false has_body) s w)
     = shown (js "Failed to start stream") /\
     isLoading (send (StreamResponse false has_body) s w) = false) /\
  (forall Stream env request_json backend s,
     let out := StreamRoute.POST Stream env request_json backend in
     Http.status (Http.response out) <> 200 ->
     messages (send (seen_by_stream_client (Http.response out)) s w)
     = shown (js "Failed to start stream")).
Proof.
  cbv zeta. unfold sendMessageStream, stream_start. split; [| split].
  - intros message s. split; reflexivity.
  - intros has_body s. split; reflexivity.
  - intros Stream env request_json backend s.
    unfold StreamRoute.POST.
    destruct request_json as [body | m]; [| reflexivity].
    destruct (backend _) as [m | r]; [reflexivity |].
    destruct (negb (Http.ok r)).
    + destruct (Http.text r); reflexivity.
    + intros H. now destruct H.
Qed.

Lemma stream_open_failure_witness :
  let send := sendMessageStream clock0 SyntaxError_message0 TypeError_message0
                (js "hi")
                {| id := js "999"; content := JStr (js "hi"); sender := user;
                   timestamp := 999; model := None |} in
  let out := StreamRoute.POST _ None
               (Http.JsonValue (JObj [(js "message", JStr (js "hi"))]))
               (backend0 unavailable) in
  Http.status (Http.response out) <> 200 /\
  content <$> messages (send (seen_by_stream_client (Http.response out))
                          scenario initial)
  = [JStr (js "Streaming error: Failed to start stream. Please try again.")].
Proof.
  assert (H : Http.status (Http.response
                (StreamRoute.POST _ None
                   (Http.JsonValue (JObj [(js "message", JStr (js "hi"))]))
                   (backend0 unavailable))) <> 200) by discriminate.
  split; [exact H |].
  rewrite (proj2 (proj2 (stream_open_failure clock0 SyntaxError_message0
                           TypeError_message0 (js "hi")
                           {| id := js "999"; content := JStr (js "hi");
                              sender := user; timestamp := 999;
                              model := None |} initial))
             _ None _ (backend0 unavailable) scenario H).
  reflexivity.
Defined.

(** ** What the proxy handlers send and return *)

(** X13: both handlers forward at most once and answer with 200 or 500.
    When the request body is JSON, exactly one request goes to the backend,
    a POST of that body, unchanged, to the configured origin followed by
    [/chat] or [/chat/stream] (the origin [http://localhost:8000] when the
    variable is unset or empty); when it is not, none goes.  The status
    returned is 200 or 500 and nothing else, and the console is written
    exactly when it is 500. *)
Theorem proxy_forwards_once
    (Stream : Type) (env : option jsstring) (request_json : Http.JsonResult)
    (backend : Http.Request -> Http.FetchResult Stream) :
  let sync := ChatRoute.POST Stream env request_json backend in
  let stream := StreamRoute.POST Stream env request_json backend in
  let origin := match env with
                | Some (c :: u) => c :: u
                | _ => js "http://localhost:8000"
                end in
  let forwarded (path : jsstring) : list Http.Request :=
    match request_json with
    | Http.JsonValue body =>
        [{| Http.url := origin ++ path; Http.method := js "POST";
            Http.req_headers := [(js "Content-Type", js "application/json")];
            Http.req_body := body |}]
    | Http.JsonRejected _ => []
    end in
  Http.fetched sync = forwarded (js "/chat") /\
  Http.fetched stream = forwarded (js "/chat/stream") /\
  (Http.status (Http.response sync) = 200 /\ Http.console sync = [] \/
   Http.status (Http.response sync) = 500 /\ Http.console sync <> []) /\
  (Http.status (Http.response stream) = 200 /\ Http.console stream = [] \/
   Http.status (Http.response stream) = 500 /\ Http.console stream <> []).
Proof.
  cbv zeta.
  assert (Hsync :
    Http.fetched (ChatRoute.POST Stream env request_json backend)
    = match request_json with
      | Http.JsonValue body => [chat_request env body]
      | Http.JsonRejected _ => []
      end /\
    (Http.status (Http.response (ChatRoute.POST Stream env request_json backend))
     = 200 /\ Http.console (ChatRoute.POST Stream env request_json backend) = []
     \/ Http.status (Http.response
                       (ChatRoute.POST Stream env request_json backend)) = 500
        /\ Http.console (ChatRoute.POST Stream env request_json backend)
           <> [])).
  { unfold ChatRoute.POST.
    destruct request_json as [body | m];
      [destruct (backend _) as [m | r];
       [| destruct (negb (Http.ok r));
          [destruct (Http.text r) | destruct (Http.json r)]] |];
      (split; [reflexivity |]);
      first [ left; split; reflexivity
            | right; split; [reflexivity | cbn; discriminate] ]. }
  assert (Hstream :
    Http.fetched (StreamRoute.POST Stream env request_json backend)
    = match request_json with
      | Http.JsonValue body => [stream_request env body]
      | Http.JsonRejected _ => []
      end /\
    (Http.status (Http.response
                    (StreamRoute.POST Stream env request_json backend))
     = 200 /\ Http.console (StreamRoute.POST Stream env request_json backend)
              = []
     \/ Http.status (Http.response
                       (StreamRoute.POST Stream env request_json backend))
        = 500
        /\ Http.console (StreamRoute.POST Stream env request_json backend)
           <> [])).
  { unfold StreamRoute.POST.
    destruct request_json as [body | m];
      [destruct (backend _) as [m | r];
       [| destruct (negb (Http.ok r)); [destruct (Http.text r) |]] |];
      (split; [reflexivity |]);
      first [ left; split; reflexivity
            | right; split; [reflexivity | cbn; discriminate] ]. }
  destruct Hsync as [Hs1 Hs2], Hstream as [Ht1 Ht2].
  split; [| split; [| split; assumption]].
  - rewrite Hs1. now destruct request_json.
  - rewrite Ht1. now destruct request_json.
Qed.

(** ** Identifiers *)

Lemma uint_digits_injective (d d' : Decimal.uint) :
  uint_digits d = uint_digits d' -> d = d'.
Proof.
  revert d'. induction d; destruct d'; cbn [uint_digits]; intros H;
    try discriminate H; try reflexivity;
    injection H as H; f_equal; auto.
Qed.

Lemma uint_digits_no_sign (d : Decimal.uint) (s : jsstring) :
  uint_digits d <> 45 :: s.
Proof. destruct d; discriminate. Qed.

Lemma toString_inj (a b : Z) : toString a = toString b -> a = b.
Proof.
  unfold toString. intros H.
  rewrite <- (DecimalZ.of_to a), <- (DecimalZ.of_to b).
  destruct (Z.to_int a) as [d | d], (Z.to_int b) as [d' | d'].
  - now rewrite (uint_digits_injective _ _ H).
  - now destruct (uint_digits_no_sign d _ H).
  - symmetry in H. now destruct (uint_digits_no_sign d' _ H).
  - injection H as H. now rewrite (uint_digits_injective _ _ H).
Qed.

(** X14: identifiers tell numbers apart.  The decimal text of a number is
    never empty, and two numbers have the same text only when they are
    equal, so two identifiers are equal only when the clock readings they
    were made from are. *)
Theorem toString_injective (a b : Z) :
  toString a <> [] /\ (toString a = toString b <-> a = b).
Proof.
  split.
  - intros H. assert (E : toString a = toString 0 -> False).
    { intros E. apply toString_inj in E. subst a. discriminate H. }
    unfold toString in H, E.
    destruct (Z.to_int a) as [d | d] eqn:Ea; [| discriminate H].
    destruct d; try discriminate H.
    pose proof (DecimalZ.of_to a) as Ho. rewrite Ea in Ho.
    cbn in Ho. subst a. discriminate Ea.
  - split; [apply toString_inj | now intros ->].
Qed.

Lemma toString_injective_witness :
  toString 1000 = toString (999 + 1) /\ 1000 = 999 + 1.
Proof.
  split; [reflexivity |].
  apply (proj2 (toString_injective 1000 (999 + 1))). reflexivity.
Defined.

Section Fresh.

Variable clock : nat -> Z.
Variables SyntaxError_message TypeError_message : jsstring -> jsstring.
Variable Number_toString : number -> jsstring.
Hypothesis clock_increasing : increasing clock.

Lemma clock_monotone k k' : (k <= k')%nat -> clock k <= clock k'.
Proof.
  induction 1 as [|k' _ IH]; [lia |].
  pose proof (clock_increasing k'). lia.
Qed.

Lemma id_below_later w w' i :
  (ticks w <= ticks w')%nat -> id_below clock w i -> id_below clock w' i.
Proof.
  intros Ht (n & -> & Hn). exists n. split; [reflexivity |].
  pose proof (clock_monotone _ _ Ht). lia.
Qed.

Lemma id_below_next w w' :
  (ticks w < ticks w')%nat ->
  id_below clock w' (toString (clock (ticks w) + 1)).
Proof.
  intros Ht. eexists. split; [reflexivity |].
  pose proof (clock_increasing (ticks w)).
  pose proof (clock_monotone (S (ticks w)) (ticks w') Ht). lia.
Qed.

Lemma id_below_now w w' :
  (ticks w <= ticks w')%nat -> id_below clock w' (toString (clock (ticks w))).
Proof.
  intros Ht. eexists. split; [reflexivity |]. now apply clock_monotone.
Qed.

Lemma messages_below_later w w' :
  (ticks w <= ticks w')%nat ->
  Forall (fun m => id_below clock w (id m)) (messages w) ->
  Forall (fun m => id_below clock w' (id m)) (messages w).
Proof.
  intros Ht H. eapply Forall_impl; [exact H |].
  intros m. now apply id_below_later.
Qed.

Lemma pending_below_later w w' (ps : list Pending) :
  (ticks w <= ticks w')%nat ->
  Forall (fun p => match p with
                   | AwaitRead rd => id_below clock w (assistantMessageId rd)
                   | _ => True
                   end) ps ->
  Forall (fun p => match p with
                   | AwaitRead rd => id_below clock w' (assistantMessageId rd)
                   | _ => True
                   end) ps.
Proof.
  intros Ht H. eapply Forall_impl; [exact H |].
  intros [| rd |]; try (intros _; exact I). now apply id_below_later.
Qed.

Lemma upsert_Forall (Q : Message -> Prop) (m : Message) (ms : list Message) :
  Forall Q ms -> Q m -> Forall Q (upsert m ms).
Proof.
  intros Hms Hm. unfold upsert. destruct (findIndex _ ms).
  - now apply Forall_insert.
  - apply Forall_app. split; [exact Hms | now constructor].
Qed.

Lemma read_loop_Forall (Q : Message -> Prop) i st values :
  (forall m, id m = i -> Q m) ->
  Forall Q (messages (snd st)) ->
  Forall Q (messages (snd (read_loop clock i st values))).
Proof.
  intros HQ.
  apply (read_loop_relation clock i
           (fun a b => Forall Q (messages (snd a)) ->
                       Forall Q (messages (snd b)))).
  - auto.
  - auto.
  - intros [am w] line.
    destruct (process_line_cases clock i am w line)
      as [-> | [[e ->] | (data & c & _ & _ & _ & ->)]];
      cbn [snd console_error setMessages Date_now messages]; auto.
    intros H. apply upsert_Forall; [exact H | now apply HQ].
Qed.

Lemma read_loop_ticks i st values :
  (ticks (snd st) <= ticks (snd (read_loop clock i st values)))%nat.
Proof.
  apply (read_loop_relation clock i
           (fun a b => (ticks (snd a) <= ticks (snd b))%nat)).
  - lia.
  - lia.
  - intros [am w] line.
    destruct (process_line_cases clock i am w line)
      as [-> | [[e ->] | (data & c & _ & _ & _ & ->)]];
      cbn [snd console_error setMessages Date_now ticks]; lia.
Qed.

Lemma stream_catch_below e w :
  Forall (fun m => id_below clock w (id m)) (messages w) ->
  let w' := stream_catch clock SyntaxError_message TypeError_message e w in
  Forall (fun m => id_below clock w' (id m)) (messages w') /\
  (ticks w <= ticks w')%nat.
Proof.
  intros H. cbv zeta. split; [| cbn; lia].
  change (messages (stream_catch clock SyntaxError_message TypeError_message
                      e w))
    with (messages w
          ++ [{| id := toString (clock (ticks w) + 1);
                 content := JStr (js "Streaming error: "
                                  ++ message_of SyntaxError_message
                                       TypeError_message e
                                  ++ js ". Please try again.");
                 sender := assistant; timestamp := clock (S (ticks w));
                 model := None |}]).
  apply Forall_app. split.
  - eapply Forall_impl; [exact H |].
    intros m. apply id_below_later. cbn. lia.
  - constructor; [| constructor]. apply id_below_next. cbn. lia.
Qed.

Lemma sync_catch_below e w0 w :
  (ticks w0 <= ticks w)%nat -> messages w = messages w0 ->
  Forall (fun m => id_below clock w0 (id m)) (messages w0) ->
  let w' := sync_catch clock SyntaxError_message TypeError_message e w in
  Forall (fun m => id_below clock w' (id m)) (messages w') /\
  (ticks w0 <= ticks w')%nat.
Proof.
  intros Ht Hm H. cbv zeta. split; [| cbn; lia].
  change (messages (sync_catch clock SyntaxError_message TypeError_message
                      e w))
    with (messages w
          ++ [{| id := toString (clock (ticks w) + 1);
                 content := JStr (js "Sorry, I encountered an error: "
                                  ++ message_of SyntaxError_message
                                       TypeError_message e
                                  ++ js ". Please try again.");
                 sender := assistant; timestamp := clock (S (ticks w));
                 model := None |}]).
  rewrite Hm. apply Forall_app. split.
  - eapply Forall_impl; [exact H |].
    intros m. apply id_below_later. cbn. lia.
  - constructor; [| constructor]. apply id_below_next. cbn. lia.
Qed.

End Fresh.

Section FreshRun.

Variable clock : nat -> Z.
Variables SyntaxError_message TypeError_message : jsstring -> jsstring.
Variable Number_toString : number -> jsstring.
Hypothesis clock_increasing : increasing clock.

Lemma messages_below_keep w w' :
  messages w' = messages w -> (ticks w <= ticks w')%nat ->
  messages_below clock w -> messages_below clock w'.
Proof.
  unfold messages_below. intros -> Ht H. eapply Forall_impl; [exact H |].
  intros m. now apply (id_below_later clock clock_increasing w w').
Qed.

Lemma messages_below_push w w' m :
  messages w' = messages w ++ [m] -> (ticks w <= ticks w')%nat ->
  id_below clock w' (id m) ->
  messages_below clock w -> messages_below clock w'.
Proof.
  unfold messages_below. intros -> Ht Hm H. apply Forall_app. split.
  - eapply Forall_impl; [exact H |].
    intros x. now apply (id_below_later clock clock_increasing w w').
  - now repeat constructor.
Qed.

Lemma sendMessage_below w w' call :
  sendMessage clock w = (w', call) ->
  messages_below clock w ->
  messages_below clock w' /\ (ticks w <= ticks w')%nat.
Proof.
  unfold sendMessage. destruct (negb _ || isLoading w).
  - intros [= <- _] H. split; [exact H | lia].
  - cbn [Date_now].
    assert (Hgoal : forall c : option Call,
      (setIsLoading true
         (setInput []
            (setMessages
               (fun prev =>
                  prev ++ [{| id := toString (clock (ticks w));
                              content := JStr (trim (input w));
                              sender := user;
                              timestamp := clock (S (ticks w));
                              model := None |}])
               {| messages := messages w; input := input w;
                  isLoading := isLoading w; useStreaming := useStreaming w;
                  console := console w; fetched := fetched w;
                  ticks := S (S (ticks w)) |})), c) = (w', call) ->
      messages_below clock w ->
      messages_below clock w' /\ (ticks w <= ticks w')%nat).
    { intros c [= <- _] H. split; [| cbn; lia].
      eapply (messages_below_push w); [reflexivity | cbn; lia | | exact H].
      apply (id_below_now clock clock_increasing). cbn. lia. }
    destruct (useStreaming w); apply Hgoal.
Qed.

Lemma sync_fetched_below r w :
  messages_below clock w ->
  let w' := sync_fetched clock SyntaxError_message TypeError_message
              Number_toString r w in
  messages_below clock w' /\ (ticks w <= ticks w')%nat.
Proof.
  intros H. cbv zeta.
  pose proof (fun e => sync_catch_below clock SyntaxError_message
                         TypeError_message clock_increasing e w w
                         (Nat.le_refl _) eq_refl H) as Hc.
  destruct r as [m | [|] [v | m]]; cbn [sync_fetched]; try apply Hc.
  - cbn [Date_now]. destruct (get v (js "response")).
    + split; [| cbn; lia].
      eapply (messages_below_push w); [reflexivity | cbn; lia | | exact H].
      apply (id_below_next clock clock_increasing). cbn. lia.
    + apply (sync_catch_below clock SyntaxError_message TypeError_message
               clock_increasing _ w); [cbn; lia | reflexivity | exact H].
  - destruct (get v (js "error")) as [e|]; [| apply Hc].
    destruct (truthy e); [destruct (ToString _ e) |]; apply Hc.
Qed.

Lemma process_chunk_below i am w value :
  id_below clock w i -> messages_below clock w ->
  let w' := snd (process_chunk clock i (am, w) value) in
  messages_below clock w' /\ (ticks w <= ticks w')%nat.
Proof.
  intros Hi H. cbv zeta.
  change (process_chunk clock i (am, w) value)
    with (read_loop clock i (am, w) [value]).
  pose proof (read_loop_ticks clock i (am, w) [value]) as Ht.
  cbn [snd] in Ht. split; [| exact Ht].
  unfold messages_below.
  eapply Forall_impl;
    [apply (read_loop_Forall clock
              (fun m => id_below clock w (id m)) i (am, w) [value]) |].
  - intros m ->. exact Hi.
  - exact H.
  - intros m. now apply (id_below_later clock clock_increasing w).
Qed.

Lemma step_ids_below s e s' :
  ids_below clock s ->
  step clock SyntaxError_message TypeError_message Number_toString s e
  = Some s' ->
  ids_below clock s'.
Proof.
  intros [Hm Hp]. fold (messages_below clock (world s)) in Hm.
  fold (pending_below clock (world s) (pending s)) in Hp.
  assert (Hlater : forall w' ps,
            (ticks (world s) <= ticks w')%nat ->
            pending_below clock (world s) ps -> pending_below clock w' ps).
  { intros w' ps. apply (pending_below_later clock clock_increasing). }
  unfold step. destruct e as [| text | b | | k r | k r | k r].
  - destruct (sendMessage clock (world s)) as [w' call] eqn:E.
    destruct (sendMessage_below _ _ _ E Hm) as [Hm' Ht].
    destruct call as [[mc um | mc]|]; intros [= <-]; split;
      cbn [world pending]; try exact Hm';
      try (apply Forall_app; split; [| repeat constructor]);
      now apply Hlater.
  - intros [= <-]. split; [exact Hm | exact Hp].
  - intros [= <-]. split; [exact Hm | exact Hp].
  - intros [= <-]. split; [constructor | exact Hp].
  - destruct (pending s !! k) as [[| rd |]|] eqn:Hk; try discriminate.
    intros [= <-].
    assert (Hcatch : forall e,
              ids_below clock
                {| world := stream_catch clock SyntaxError_message
                              TypeError_message e (world s);
                   pending := delete k (pending s) |}).
    { intros e.
      destruct (stream_catch_below clock SyntaxError_message
                  TypeError_message clock_increasing e (world s) Hm)
        as [Hc Ht].
      split; cbn [world pending]; [exact Hc |].
      apply Forall_delete. now apply Hlater. }
    destruct r as [m | [|] [|]]; cbn [stream_fetched negb Date_now resume];
      try apply Hcatch.
    + split; cbn [world pending].
      * apply (messages_below_keep (world s));
          [reflexivity | cbn; lia | exact Hm].
      * apply Forall_insert.
        -- apply Hlater; [cbn; lia | exact Hp].
        -- apply (id_below_next clock clock_increasing). cbn. lia.
    + split; cbn [world pending].
      * apply (messages_below_keep (world s));
          [reflexivity | cbn; lia | exact Hm].
      * apply Forall_delete. apply Hlater; [cbn; lia | exact Hp].
  - destruct (pending s !! k) as [[| rd |]|] eqn:Hk; try discriminate.
    intros [= <-].
    assert (Hrd : id_below clock (world s) (assistantMessageId rd)).
    { exact (proj1 (Forall_lookup _ _) Hp k _ Hk). }
    destruct r as [value | | m]; cbn [stream_read resume].
    + destruct (process_chunk_below _ (assistantMessage rd) _ value Hrd Hm)
        as [Hc Ht].
      destruct (process_chunk clock _ _ value) as [am w'].
      cbn [snd] in Hc, Ht. split; cbn [world pending]; [exact Hc |].
      apply Forall_insert; [now apply Hlater |].
      now apply (id_below_later clock clock_increasing (world s)).
    + split; cbn [world pending]; [exact Hm |].
      apply Forall_delete. exact Hp.
    + destruct (stream_catch_below clock SyntaxError_message
                  TypeError_message clock_increasing (Rejected m)
                  (world s) Hm) as [Hc Ht].
      split; cbn [world pending]; [exact Hc |].
      apply Forall_delete. now apply Hlater.
  - destruct (pending s !! k) as [[| rd |]|] eqn:Hk; try discriminate.
    intros [= <-].
    destruct (sync_fetched_below r (world s) Hm) as [Hc Ht].
    split; cbn [world pending]; [exact Hc |].
    apply Forall_delete. now apply Hlater.
Qed.

Lemma run_ids_below es s s' :
  ids_below clock s ->
  run clock SyntaxError_message TypeError_message Number_toString s es
  = Some s' ->
  ids_below clock s'.
Proof.
  revert s. induction es as [|e es IH]; intros s Hs; cbn [run].
  - now intros [= <-].
  - destruct (step _ _ _ _ s e) as [s1|] eqn:E; [| discriminate].
    apply IH. now apply (step_ids_below s e).
Qed.

Lemma fresh_when_below w :
  messages_below clock w ->
  findIndex (toString (clock (ticks w) + 1)) (messages w) = None.
Proof.
  intros H. unfold findIndex.
  assert (E : list_find (fun m => id m = toString (clock (ticks w) + 1))
                (messages w) = None).
  { apply list_find_None. eapply Forall_impl; [exact H |].
    intros m (n & Hn & Hle) Heq. rewrite Hn in Heq.
    apply toString_inj in Heq. lia. }
  now rewrite E.
Qed.

End FreshRun.

(** X15: with a clock whose readings increase strictly, identifiers never
    clash where it matters.  In every state the component reaches from its
    mounting, whatever the events, every message identifier (and the
    identifier of every send that is reading) is the text of a number that
    the next clock reading is not below; hence the identifier an assistant
    turn would choose next is carried by no message, and the first content
    frame of a turn always pushes a new message. *)
Theorem identifiers_fresh_under_increasing_clock
    (clock : nat -> Z) (SyntaxError_message TypeError_message : jsstring -> jsstring)
    (Number_toString : number -> jsstring)
    (es : list Event) (s : System) :
  increasing clock ->
  run clock SyntaxError_message TypeError_message Number_toString
    {| world := initial; pending := [] |} es = Some s ->
  ids_below clock s /\
  findIndex (toString (clock (ticks (world s)) + 1)) (messages (world s))
  = None.
Proof.
  intros Hclock Hrun.
  assert (H : ids_below clock s).
  { eapply (run_ids_below clock SyntaxError_message TypeError_message
              Number_toString Hclock es); [| exact Hrun].
    split; constructor. }
  split; [exact H |].
  apply (fresh_when_below clock). exact (proj1 H).
Qed.

Lemma identifiers_fresh_under_increasing_clock_witness :
  let run0 := run clock0 SyntaxError_message0 TypeError_message0
                Number_toString0 in
  let es := [EvInput (js "hi"); EvSend;
             EvStreamFetch 0 (StreamRejected (js "offline"));
             EvInput (js "hi"); EvSend] in
  increasing clock0 /\
  exists s,
    run0 {| world := initial; pending := [] |} es = Some s /\
    length (messages (world s)) = 3%nat /\
    findIndex (toString (clock0 (ticks (world s)) + 1)) (messages (world s))
    = None.
Proof.
  assert (Hc : increasing clock0) by (intros k; unfold clock0; lia).
  split; [exact Hc |].
  eexists. split; [vm_compute; reflexivity |].
  split; [reflexivity |].
  match goal with
  | |- findIndex _ (messages (world ?s)) = None =>
      exact (proj2 (identifiers_fresh_under_increasing_clock clock0
                      SyntaxError_message0 TypeError_message0
                      Number_toString0
                      [EvInput (js "hi"); EvSend;
                       EvStreamFetch 0 (StreamRejected (js "offline"));
                       EvInput (js "hi"); EvSend] s Hc
                      ltac:(vm_compute; reflexivity)))
  end.
Defined.

(** ** Clearing the chat while a reply streams *)

(** X16: Clear Chat does not stop a stream.  It empties the conversation and
    leaves the busy flag and everything else as they were; the next content
    frame of the turn then pushes the turn's message again, alone and with
    the whole cumulative content of the frame. *)
Theorem clear_during_stream
    (clock : nat -> Z) (i : jsstring) (am : jsval) (w : World)
    (line : jsstring) (c : jsval) :
  content_frame line c ->
  messages (clearChat w) = [] /\
  isLoading (clearChat w) = isLoading w /\
  input (clearChat w) = input w /\
  exists w' m,
    process_line clock i (am, clearChat w) line = ((c, w'), Continue) /\
    messages w' = [m] /\ id m = i /\ content m = c /\
    sender m = assistant /\ isLoading w' = isLoading w.
Proof.
  intros (data & Hf & Hc & Ht). repeat split.
  rewrite (process_line_content clock i am (clearChat w) line data c Hf Hc Ht).
  eexists _, _. split; [reflexivity |]. repeat split.
Qed.

Lemma clear_during_stream_witness :
  let line := js (quoted "data: {'content':'Hello'}") in
  let w := snd (process_lines clock0 (js "1001") (JStr [], initial)
                  [js (quoted "data: {'content':'Hel'}")]) in
  content_frame line (JStr (js "Hello")) /\
  length (messages w) = 1%nat /\
  exists w' m,
    process_line clock0 (js "1001") (JStr (js "Hel"), clearChat w) line
    = ((JStr (js "Hello"), w'), Continue) /\
    messages w' = [m] /\ content m = JStr (js "Hello").
Proof.
  assert (Hf : content_frame (js (quoted "data: {'content':'Hello'}"))
                 (JStr (js "Hello"))).
  { eexists. repeat split; vm_compute; reflexivity. }
  split; [exact Hf | split; [reflexivity |]].
  destruct (clear_during_stream clock0 (js "1001") (JStr (js "Hel"))
              (snd (process_lines clock0 (js "1001") (JStr [], initial)
                      [js (quoted "data: {'content':'Hel'}")])) _ _ Hf)
    as (_ & _ & _ & w' & m & E & Hm & _ & Hc & _).
  exists w', m. repeat split; assumption.
Defined.

(** ** Lines and chunks *)

Lemma split_nonempty (sep : Z) (s : jsstring) : split sep s <> [].
Proof.
  destruct s as [|c s]; cbn [split]; [discriminate |].
  destruct (c =? sep); [discriminate |].
  destruct (split sep s); discriminate.
Qed.

(** X17: splitting a chunk into lines loses nothing.  There is always at
    least one line, no line holds the separator, and the lines joined by the
    separator give back the text. *)
Theorem split_join (sep : Z) (s : jsstring) :
  split sep s <> [] /\
  Forall (fun line => Forall (fun c => c <> sep) line) (split sep s) /\
  join sep (split sep s) = s.
Proof.
  split; [apply split_nonempty |].
  induction s as [|c s [IHF IHJ]]; cbn [split].
  - split; [repeat constructor | reflexivity].
  - destruct (Z.eqb_spec c sep) as [-> | Hc].
    + split; [constructor; [constructor | exact IHF] |].
      cbn [join]. pose proof (split_nonempty sep s) as Hn.
      destruct (split sep s) as [|l ls]; [contradiction |].
      cbn [app]. now rewrite IHJ.
    + pose proof (split_nonempty sep s) as Hn.
      destruct (split sep s) as [|l ls]; [contradiction |].
      apply Forall_cons in IHF as [Hl Hls]. split.
      * constructor; [now constructor | exact Hls].
      * cbn [join] in *. destruct ls; cbn [app]; now rewrite IHJ.
Qed.

Lemma split_app_sep (sep : Z) (a b : jsstring) :
  split sep (a ++ sep :: b) = split sep a ++ split sep b.
Proof.
  induction a as [|c a IH]; cbn [app split].
  - now rewrite Z.eqb_refl.
  - rewrite IH. destruct (c =? sep); [reflexivity |].
    pose proof (split_nonempty sep a) as Hn.
    destruct (split sep a) as [|l ls]; [contradiction | reflexivity].
Qed.

Lemma utf8_run_ascii (bs : list Byte.byte) :
  is_ascii bs = true ->
  utf8_run utf8_initial bs = map (fun b => Z.of_N (Byte.to_N b)) bs.
Proof.
  induction bs as [|b bs IH]; cbn [is_ascii forallb utf8_run map].
  - reflexivity.
  - intros H. apply andb_true_iff in H as [Hb Hbs].
    unfold utf8_handler, utf8_lead. cbn [bytes_needed utf8_initial Z.eqb].
    rewrite Hb. cbn [app]. f_equal. now apply IH.
Qed.

Lemma decode_of_ascii (bs : list Byte.byte) :
  is_ascii bs = true ->
  TextDecoder_decode bs = map (fun b => Z.of_N (Byte.to_N b)) bs.
Proof.
  intros H. unfold TextDecoder_decode. rewrite (utf8_run_ascii bs H).
  assert (E : flat_map utf16_units (map (fun b => Z.of_N (Byte.to_N b)) bs)
              = map (fun b => Z.of_N (Byte.to_N b)) bs).
  { clear -H. induction bs as [|b bs IH]; [reflexivity |].
    cbn [is_ascii forallb] in H. apply andb_true_iff in H as [Hb Hbs].
    cbn [map flat_map]. unfold utf16_units at 1.
    apply Z.leb_le in Hb.
    destruct (Z.ltb_spec (Z.of_N (Byte.to_N b)) 0x10000); [| lia].
    cbn [app]. f_equal. now apply IH. }
  rewrite E. destruct bs as [|b bs]; [reflexivity |].
  cbn [is_ascii forallb] in H. apply andb_true_iff in H as [Hb _].
  apply Z.leb_le in Hb. cbn [map strip_bom].
  destruct (Z.eqb_spec (Z.of_N (Byte.to_N b)) 0xFEFF); [lia | reflexivity].
Qed.

(** X18: a stream of ASCII bytes decodes the same however it is cut.  Each
    chunk of ASCII bytes decodes to the code units of its bytes, so the texts
    of the chunks, one after the other, are the text of the whole stream. *)
Theorem ascii_chunks_decode_alike (values : list (list Byte.byte)) :
  Forall (fun value => is_ascii value = true) values ->
  Forall (fun value =>
            TextDecoder_decode value
            = map (fun b => Z.of_N (Byte.to_N b)) value) values /\
  concat (map TextDecoder_decode values) = TextDecoder_decode (concat values).
Proof.
  intros H. split.
  - eapply Forall_impl; [exact H |]. intros v. apply decode_of_ascii.
  - assert (Ha : is_ascii (concat values) = true).
    { induction H as [|v vs Hv _ IH]; [reflexivity |].
      cbn [concat]. unfold is_ascii in *. rewrite forallb_app.
      now rewrite Hv, IH. }
    rewrite (decode_of_ascii _ Ha).
    induction H as [|v vs Hv Hvs IH]; [reflexivity |].
    cbn [concat map]. rewrite map_app, (decode_of_ascii v Hv). f_equal.
    apply IH. unfold is_ascii in *. cbn [concat] in Ha.
    rewrite forallb_app in Ha. now apply andb_true_iff in Ha as [_ Ha].
Qed.

Lemma ascii_chunks_decode_alike_witness :
  Forall (fun value => is_ascii value = true)
    [bytes "data: {'cont"; bytes_ln "ent':'Hel'}"] /\
  TextDecoder_decode (bytes "data: {'cont")
  ++ TextDecoder_decode (bytes_ln "ent':'Hel'}")
  = TextDecoder_decode chunk_Hel.
Proof.
  assert (H : Forall (fun value => is_ascii value = true)
                [bytes "data: {'cont"; bytes_ln "ent':'Hel'}"])
    by (repeat constructor).
  split; [exact H |].
  pose proof (proj2 (ascii_chunks_decode_alike _ H)) as E.
  cbn [map concat] in E. rewrite app_nil_r in E. rewrite E.
  reflexivity.
Defined.

(** ** Frames that end in a carriage return *)

Lemma lex_default_letters toks c st' :
  lex_default toks c = Some st' -> literal_letters st'.
Proof.
  unfold lex_default.
  repeat match goal with
         | |- context [if ?b then _ else _] => destruct b
         end;
    intros [= <-]; unfold literal_letters; cbn; try exact I;
    repeat constructor; lia.
Qed.

Lemma lex_step_letters st c st' :
  literal_letters st -> lex_step st c = Some st' -> literal_letters st'.
Proof.
  destruct st as [mode toks]. unfold literal_letters at 1. cbn [fst lex_step].
  destruct mode as [| acc | acc | acc k v | ph a | rest t]; intros Hok.
  - apply lex_default_letters.
  - repeat match goal with
           | |- context [if ?b then _ else _] => destruct b
           end; intros [= <-]; exact I.
  - destruct (c =? 117); [intros [= <-]; exact I |].
    destruct (escape_value c); intros [= <-]; exact I.
  - destruct (hex_value c) as [h|]; [| discriminate].
    destruct k as [|[|k]]; intros [= <-]; exact I.
  - destruct (lex_num ph a c) as [[[ph' a']|]|]; [| | discriminate].
    + intros [= <-]; exact I.
    + apply lex_default_letters.
  - destruct rest as [|x [|y rest]]; [discriminate | |].
    + destruct (c =? x); intros [= <-]; exact I.
    + destruct (c =? x); intros [= <-]. unfold literal_letters. cbn [fst].
      now inversion Hok.
Qed.

Lemma lex_run_letters s st st' :
  literal_letters st -> lex_run st s = Some st' -> literal_letters st'.
Proof.
  revert st. induction s as [|c s IH]; intros st Hok; cbn [lex_run].
  - now intros [= <-].
  - destruct (lex_step st c) as [st1|] eqn:E; [| discriminate].
    apply IH. eapply lex_step_letters; eassumption.
Qed.

Lemma lex_carriage_return (s : jsstring) : lex (s ++ [13]) = lex s.
Proof.
  unfold lex. rewrite lex_run_snoc.
  destruct (lex_run (LDefault, []) s) as [[mode toks]|] eqn:E; [| reflexivity].
  assert (Hok : literal_letters (mode, toks))
    by (apply (lex_run_letters s (LDefault, []) _ I E)).
  unfold literal_letters in Hok. cbn [fst] in Hok.
  destruct mode as [| acc | acc | acc k v | ph a | rest t];
    try reflexivity.
  - destruct ph; reflexivity.
  - cbn [lex_step].
    destruct rest as [|x [|y rest]]; [reflexivity | |];
      apply Forall_cons in Hok as [Hx _];
      destruct (Z.eqb_spec 13 x); [lia | reflexivity | lia | reflexivity].
Qed.

Lemma startsWith_app (l t p : jsstring) :
  startsWith l p = true ->
  startsWith (l ++ t) p = true /\ (length p <= length l)%nat.
Proof.
  revert l. induction p as [|x p IH]; intros l H.
  - split; [now destruct (l ++ t) | cbn; lia].
  - destruct l as [|y l]; [discriminate |].
    cbn [startsWith app length] in *.
    apply andb_true_iff in H as [Hx H]. destruct (IH l H) as [H1 H2].
    rewrite Hx, H1. split; [reflexivity | lia].
Qed.

(** X19: a frame that ends in a carriage return (a stream with CR LF line
    ends) is processed exactly as the frame without it: the carriage return
    left at the end of the line by the split on line feeds is white space to
    [JSON.parse]. *)
Theorem carriage_return_is_ignored
    (clock : nat -> Z) (i : jsstring) (st : jsval * World)
    (line : jsstring) (data : jsval) :
  is_frame line data ->
  is_frame (line ++ [13]) data /\
  process_line clock i st (line ++ [13]) = process_line clock i st line.
Proof.
  intros [Hp Hj].
  destruct (startsWith_app line [13] (js "data: ") Hp) as [Hp' Hlen].
  assert (Hj' : JSON_parse (slice 6 (line ++ [13])) = Some data).
  { unfold slice. rewrite drop_app_le by exact Hlen.
    unfold JSON_parse. rewrite lex_carriage_return. exact Hj. }
  split; [split; assumption |].
  destruct st as [am w]. unfold process_line.
  now rewrite Hp, Hp', Hj, Hj'.
Qed.

Lemma carriage_return_is_ignored_witness :
  let line := js (quoted "data: {'content':'Hel'}") in
  let data := JObj [(js "content", JStr (js "Hel"))] in
  is_frame line data /\
  fst (fst (process_line clock0 (js "1001") (JStr [], initial)
              (line ++ [13]))) = JStr (js "Hel").
Proof.
  destruct scenario_frames as (F1 & _ & _).
  split; [exact F1 |].
  rewrite (proj2 (carriage_return_is_ignored clock0 (js "1001")
                    (JStr [], initial) _ _ F1)).
  reflexivity.
Defined.

(** ** Merging chunks *)

(** X20: two chunks read in turn act as their concatenation when the first
    ends in a line feed, its lines meet no end marker ([break]), and the
    second does not begin with a byte order mark.  Without a [break] in the
    first chunk, how whole lines are spread over chunks does not matter. *)
Theorem chunks_merge_at_line_feed
    (clock : nat -> Z) (i : jsstring) (st : jsval * World)
    (c1 c2 : list Byte.byte) (rest : list (list Byte.byte)) (t1 : jsstring) :
  TextDecoder_decode c1 = t1 ++ [10] ->
  starts_with_mark c2 = false ->
  completes clock i st (split 10 t1) = true ->
  read_loop clock i st (c1 :: c2 :: rest)
  = read_loop clock i st ((c1 ++ c2) :: rest).
Proof.
  intros H1 H2 Hc.
  assert (Hmid : ends_mid_character c1 = false).
  { destruct (ends_mid_character c1) eqn:E; [| reflexivity].
    destruct (decode_mid_character c1 E) as [u Hu].
    rewrite H1 in Hu. apply app_inj_tail in Hu as [_ Hu]. discriminate. }
  rewrite !read_loop_cons.
  rewrite <- (decode_aligned c1 c2 Hmid H2), H1.
  rewrite <- app_assoc. cbn [app].
  rewrite (split_app_sep 10 t1 (TextDecoder_decode c2)).
  rewrite (split_app_sep 10 t1 []). cbn [split].
  rewrite !(process_lines_app clock i st _ _ Hc).
  destruct (process_lines clock i st (split 10 t1)) as [am w].
  now rewrite (process_lines_cons_continue clock i _ _ [] []
                 (process_line_no_prefix clock i (am, w) [] eq_refl)).
Qed.

Lemma chunks_merge_at_line_feed_witness :
  let st := (JStr [], initial) in
  TextDecoder_decode chunk_Hel = js (quoted "data: {'content':'Hel'}") ++ [10] /\
  starts_with_mark chunk_Hello = false /\
  completes clock0 (js "1001") st
    (split 10 (js (quoted "data: {'content':'Hel'}"))) = true /\
  read_loop clock0 (js "1001") st [chunk_Hel; chunk_Hello]
  = read_loop clock0 (js "1001") st [chunk_Hel ++ chunk_Hello].
Proof.
  assert (H1 : TextDecoder_decode chunk_Hel
               = js (quoted "data: {'content':'Hel'}") ++ [10])
    by (vm_compute; reflexivity).
  assert (H2 : starts_with_mark chunk_Hello = false)
    by (vm_compute; reflexivity).
  assert (H3 : completes clock0 (js "1001") (JStr [], initial)
                 (split 10 (js (quoted "data: {'content':'Hel'}"))) = true)
    by (vm_compute; reflexivity).
  split; [exact H1 | split; [exact H2 | split; [exact H3 |]]].
  exact (chunks_merge_at_line_feed clock0 (js "1001") (JStr [], initial)
           chunk_Hel chunk_Hello [] _ H1 H2 H3).
Defined.

(** ** Requests *)

Lemma read_loop_fetched clock i st values :
  fetched (snd (read_loop clock i st values)) = fetched (snd st).
Proof.
  apply (read_loop_relation clock i
           (fun a b => fetched (snd b) = fetched (snd a))).
  - reflexivity.
  - congruence.
  - intros [am w] line.
    destruct (process_line_cases clock i am w line)
      as [-> | [[e ->] | (data & c & _ & _ & _ & ->)]]; reflexivity.
Qed.

(** X21: a request is sent when a send is accepted and at no other time.
    Across any event the requests sent so far stay as they are, except that
    a send made while no send is in flight and the input is not blank adds
    exactly one: a POST with the header [Content-Type: application/json] and
    the body [{ message }] holding the input as typed (not trimmed), to
    [/api/chat/stream] or [/api/chat] as the Streaming toggle says.  No answer of the network, no chunk and no failure
    makes the component send again. *)
Theorem requests_only_on_accepted_send
    (clock : nat -> Z) (SyntaxError_message TypeError_message : jsstring -> jsstring)
    (Number_toString : number -> jsstring)
    (s s' : System) (e : Event) :
  step clock SyntaxError_message TypeError_message Number_toString s e
  = Some s' ->
  fetched (world s')
  = fetched (world s)
    ++ match e with
       | EvSend =>
           if isLoading (world s) || blank (input (world s)) then []
           else [{| url := if useStreaming (world s)
                           then js "/api/chat/stream" else js "/api/chat";
                    method := js "POST";
                    headers := [(js "Content-Type", js "application/json")];
                    body := JObj [(js "message", JStr (input (world s)))] |}]
       | _ => []
       end.
Proof.
  unfold step. destruct e as [| text | b | | k r | k r | k r].
  - unfold sendMessage. rewrite nonempty_trim, negb_involutive.
    rewrite (orb_comm (isLoading _)).
    destruct (blank _ || isLoading (world s)).
    + intros [= <-]. cbn [world]. now rewrite app_nil_r.
    + cbn [Date_now]. destruct (useStreaming (world s));
        intros [= <-]; reflexivity.
  - intros [= <-]. cbn. now rewrite app_nil_r.
  - intros [= <-]. cbn. now rewrite app_nil_r.
  - intros [= <-]. cbn. now rewrite app_nil_r.
  - destruct (pending s !! k) as [[| rd |]|]; try discriminate.
    intros [= <-]. rewrite app_nil_r.
    destruct r as [m | [|] [|]]; reflexivity.
  - destruct (pending s !! k) as [[| rd |]|]; try discriminate.
    intros [= <-]. rewrite app_nil_r.
    destruct r as [value | | m]; try reflexivity.
    cbn [stream_read].
    pose proof (read_loop_fetched clock (assistantMessageId rd)
                  (assistantMessage rd, world s) [value]) as H.
    cbn [read_loop snd] in H.
    destruct (process_chunk clock _ _ value) as [am w']. exact H.
  - destruct (pending s !! k) as [[| rd |]|]; try discriminate.
    intros [= <-]. rewrite app_nil_r. cbn [world].
    destruct r as [m | [|] [v | m]]; try reflexivity.
    + cbn [sync_fetched Date_now]. destruct (get v _); reflexivity.
    + cbn [sync_fetched]. destruct (get v _) as [e|]; [| reflexivity].
      destruct (truthy e); [destruct (ToString _ e) |]; reflexivity.
Qed.

Lemma requests_only_on_accepted_send_witness :
  let step0 := step clock0 SyntaxError_message0 TypeError_message0
                 Number_toString0 in
  let s := {| world := setInput (js " hi ") initial; pending := [] |} in
  exists s',
    step0 s EvSend = Some s' /\
    fetched (world s')
    = [{| url := js "/api/chat/stream";
          method := js "POST";
          headers := [(js "Content-Type", js "application/json")];
          body := JObj [(js "message", JStr (js " hi "))] |}].
Proof.
  eexists. split; [vm_compute; reflexivity |].
  match goal with
  | |- fetched (world ?s') = _ =>
      exact (requests_only_on_accepted_send clock0 SyntaxError_message0
               TypeError_message0 Number_toString0
               {| world := setInput (js " hi ") initial; pending := [] |}
               s' EvSend ltac:(vm_compute; reflexivity))
  end.
Defined.
